(** * table-assignment: the helpers of [src/utils/table-helpers.ts] and the
      state handling of [src/components/DataTable.tsx]

    The pure pipeline (filterUsers, sortUsers, paginateData) is embedded as
    Rocq functions over lists; the component's React state is embedded as
    records with one transition function per event handler or effect. *)

From Stdlib Require Import List ZArith NArith Bool Lia String Ascii.
From Stdlib Require Import Sorted Permutation DecimalString.
Import ListNotations.

Set Implicit Arguments.

(* ================================================================== *)
(** * JavaScript strings *)
(* ================================================================== *)

Module JS.

(** A JavaScript string is a finite sequence of UTF-16 code units. *)
Definition jsstring := list N.

(** A string literal of the source (ASCII text), as code units. *)
Definition lit (s : string) : jsstring :=
  map N_of_ascii (list_ascii_of_string s).

Fixpoint eqb (s t : jsstring) : bool :=
  match s, t with
  | [], [] => true
  | a :: s', b :: t' => N.eqb a b && eqb s' t'
  | _, _ => false
  end.

(** [startsWith s p]: [p] is a prefix of [s]. *)
Fixpoint startsWith (s p : jsstring) {struct p} : bool :=
  match p, s with
  | [], _ => true
  | _ :: _, [] => false
  | a :: p', b :: s' => N.eqb a b && startsWith s' p'
  end.

(** [String.prototype.includes]: [p] occurs in [s] as a run of consecutive
    code units. *)
Fixpoint includes (s p : jsstring) : bool :=
  startsWith s p ||
  match s with
  | [] => false
  | _ :: s' => includes s' p
  end.

(** WhiteSpace and LineTerminator code units, the ones [trim] strips. *)
Definition isWhiteSpace (c : N) : bool :=
  ((9 <=? c) && (c <=? 13) || (c =? 32) || (c =? 160) || (c =? 5760)
   || (8192 <=? c) && (c <=? 8202) || (c =? 8232) || (c =? 8233)
   || (c =? 8239) || (c =? 8287) || (c =? 12288) || (c =? 65279))%N.

Fixpoint trimStart (s : jsstring) : jsstring :=
  match s with
  | [] => []
  | c :: s' => if isWhiteSpace c then trimStart s' else s
  end.

Definition trimEnd (s : jsstring) : jsstring := rev (trimStart (rev s)).

(** [String.prototype.trim] *)
Definition trim (s : jsstring) : jsstring := trimEnd (trimStart s).

(** [Number.prototype.toString] on an integer (below 10^21 in magnitude,
    where the result is the plain decimal numeral, with a minus sign for
    negatives). *)
Definition toString (n : Z) : jsstring :=
  lit (NilZero.string_of_int (Z.to_int n)).

(** The code units of a decimal numeral: the digits and the minus sign. *)
Definition digitOrMinus (c : N) : bool :=
  ((48 <=? c) && (c <=? 57) || (c =? 45))%N.

(** The relational operator [<] on two strings: lexicographic comparison of
    the code units; a proper prefix is smaller. *)
Fixpoint str_lt (s t : jsstring) : bool :=
  match s, t with
  | _, [] => false
  | [], _ :: _ => true
  | a :: s', b :: t' => (a <? b)%N || (N.eqb a b && str_lt s' t')
  end.

(** [s <= t] in the same order. *)
Definition str_le (s t : jsstring) : bool := negb (str_lt t s).

Definition isHighSurrogate (c : N) : bool := ((55296 <=? c) && (c <=? 56319))%N.
Definition isLowSurrogate (c : N) : bool := ((56320 <=? c) && (c <=? 57343))%N.

(** The code points a string encodes: a high surrogate followed by a low
    surrogate is one supplementary code point, any other code unit stands
    for itself. *)
Fixpoint codePoints (s : jsstring) : list N :=
  match s with
  | [] => []
  | a :: s' =>
      match s' with
      | b :: s'' =>
          if isHighSurrogate a && isLowSurrogate b
          then (65536 + (a - 55296) * 1024 + (b - 56320))%N :: codePoints s''
          else a :: codePoints s'
      | [] => [a]
      end
  end.

(** Lexicographic comparison of the code points of two strings. *)
Definition codePoint_lt (s t : jsstring) : bool :=
  str_lt (codePoints s) (codePoints t).

Definition codePoint_le (s t : jsstring) : bool := negb (codePoint_lt t s).

End JS.

(* ================================================================== *)
(** * src/utils/table-helpers.ts *)
(* ================================================================== *)

Module Helpers.
Import JS.
Local Open Scope Z_scope.

Record Name := mkName { title : jsstring; first : jsstring; last : jsstring }.
Record Dob := mkDob { date : jsstring; age : Z }.

(** [interface User] *)
Record User := mkUser {
  gender : jsstring;
  name : Name;
  email : jsstring;
  dob : Dob
}.

(** [type SortKey = "name.first" | "gender" | "dob.age" | "email"] *)
Inductive SortKey := K_name_first | K_gender | K_dob_age | K_email.

(** [type SortDirection = "asc" | "desc" | null]; [None] is [null]. *)
Inductive AscDesc := asc | desc.
Definition SortDirection := option AscDesc.

Record SortConfig := mkSortConfig { key : SortKey; direction : SortDirection }.

Definition SortKey_eqb (a b : SortKey) : bool :=
  match a, b with
  | K_name_first, K_name_first | K_gender, K_gender
  | K_dob_age, K_dob_age | K_email, K_email => true
  | _, _ => false
  end.

(** ** filterUsers *)

(** The callback given to [users.filter]. *)
Definition matchesQuery (searchStr : jsstring) (user : User) : bool :=
  let firstName := first (name user) in
  let lastName := last (name user) in
  let fullName := firstName ++ lit " " ++ lastName in
  let gender := gender user in
  let email := email user in
  let age := toString (age (dob user)) in
  let genderMatch :=
    if eqb searchStr (lit "male") then eqb gender (lit "male")
    else includes gender searchStr in
  includes firstName searchStr ||
  includes lastName searchStr ||
  includes fullName searchStr ||
  genderMatch ||
  includes email searchStr ||
  includes age searchStr.

Definition filterUsers (users : list User) (query : jsstring) : list User :=
  let searchStr := trim query in
  match searchStr with
  | [] => users
  | _ :: _ => filter (matchesQuery searchStr) users
  end.

(** ** getSortValue and sortUsers

    Two host functions are used and not defined by the repository:
    [String.prototype.toLowerCase] and [Array.prototype.sort].  They are
    parameters of the embedding. *)

Section Sorting.

Variable toLowerCase : jsstring -> jsstring.
Variable Array_sort : (User -> User -> Z) -> list User -> list User.

(** The result type [string | number] of [getSortValue], by key. *)
Definition SortValue (k : SortKey) : Type :=
  match k with
  | K_dob_age => Z
  | _ => jsstring
  end.

(** The [default] branch of the switch is not reachable for a [SortKey]. *)
Definition getSortValue (user : User) (k : SortKey) : SortValue k :=
  match k with
  | K_name_first => toLowerCase (first (name user))
  | K_gender => toLowerCase (gender user)
  | K_dob_age => age (dob user)
  | K_email => toLowerCase (email user)
  end.

(** [aValue < bValue] on two values of the same key. *)
Definition lessThan (k : SortKey) : SortValue k -> SortValue k -> bool :=
  match k with
  | K_dob_age => Z.ltb
  | _ => str_lt
  end.

(** [aValue > bValue] *)
Definition greaterThan (k : SortKey) (x y : SortValue k) : bool :=
  lessThan k y x.

(** The comparator given to [sort], for a non-null direction. *)
Definition compareUsers (k : SortKey) (d : AscDesc) (a b : User) : Z :=
  let aValue := getSortValue a k in
  let bValue := getSortValue b k in
  if lessThan k aValue bValue then
    match d with asc => -1 | desc => 1 end
  else if greaterThan k aValue bValue then
    match d with asc => 1 | desc => -1 end
  else 0.

(** [key] is one of four non-empty strings, so [!key] is false. *)
Definition sortUsers (users : list User) (sortConfig : SortConfig) : list User :=
  match direction sortConfig with
  | None => users
  | Some d => Array_sort (compareUsers (key sortConfig) d) users
  end.

End Sorting.

(** ** paginateData *)

(** [Array.prototype.slice(start, end)]: a negative index counts from the
    end of the array, both indices are clamped to [0, len]. *)
Definition slice (T : Type) (data : list T) (start end_ : Z) : list T :=
  let len := Z.of_nat (List.length data) in
  let k := if start <? 0 then Z.max (len + start) 0 else Z.min start len in
  let final := if end_ <? 0 then Z.max (len + end_) 0 else Z.min end_ len in
  firstn (Z.to_nat (final - k)) (skipn (Z.to_nat k) data).

(** [const start = (page - 1) * pageSize] *)
Definition pageStart (page pageSize : Z) : Z := (page - 1) * pageSize.

Definition paginateData (T : Type) (data : list T) (page pageSize : Z) : list T :=
  let start := pageStart page pageSize in
  slice data start (start + pageSize).

End Helpers.

(* ================================================================== *)
(** * src/components/DataTable.tsx *)
(* ================================================================== *)

Module DataTable.
Import JS.
Local Open Scope Z_scope.

(** [useState<{ key: SortKey; direction: "asc" | "desc" }>] *)
Record SortState := mkSortState {
  key : Helpers.SortKey;
  direction : Helpers.AscDesc
}.

(** The pending [setTimeout] of the debounce effect: the [searchQuery] its
    callback closed over, and the milliseconds left before it runs. *)
Record Timer := mkTimer { captured : jsstring; remaining : nat }.

(** The component's state cells, with the pending timer. *)
Record State := mkState {
  users : list Helpers.User;
  loading : bool;
  error : option jsstring;
  searchQuery : jsstring;
  debouncedQuery : jsstring;
  sortConfig : SortState;
  currentPage : Z;
  timer : option Timer
}.

Definition pageSize : Z := 5.

(** State after the first render, once the debounce effect has run. *)
Definition mount : State :=
  {| users := [];
     loading := true;
     error := None;
     searchQuery := [];
     debouncedQuery := [];
     sortConfig := {| key := Helpers.K_name_first; direction := Helpers.asc |};
     currentPage := 1;
     timer := Some {| captured := []; remaining := 300 |} |}.

Definition setUsers (v : list Helpers.User) (s : State) : State :=
  mkState v (loading s) (error s) (searchQuery s) (debouncedQuery s)
          (sortConfig s) (currentPage s) (timer s).
Definition setLoading (v : bool) (s : State) : State :=
  mkState (users s) v (error s) (searchQuery s) (debouncedQuery s)
          (sortConfig s) (currentPage s) (timer s).
Definition setError (v : option jsstring) (s : State) : State :=
  mkState (users s) (loading s) v (searchQuery s) (debouncedQuery s)
          (sortConfig s) (currentPage s) (timer s).
Definition setSearchQuery (v : jsstring) (s : State) : State :=
  mkState (users s) (loading s) (error s) v (debouncedQuery s)
          (sortConfig s) (currentPage s) (timer s).
Definition setDebouncedQuery (v : jsstring) (s : State) : State :=
  mkState (users s) (loading s) (error s) (searchQuery s) v
          (sortConfig s) (currentPage s) (timer s).
Definition setSortConfig (f : SortState -> SortState) (s : State) : State :=
  mkState (users s) (loading s) (error s) (searchQuery s) (debouncedQuery s)
          (f (sortConfig s)) (currentPage s) (timer s).
Definition setCurrentPage (f : Z -> Z) (s : State) : State :=
  mkState (users s) (loading s) (error s) (searchQuery s) (debouncedQuery s)
          (sortConfig s) (f (currentPage s)) (timer s).
Definition setTimer (t : option Timer) (s : State) : State :=
  mkState (users s) (loading s) (error s) (searchQuery s) (debouncedQuery s)
          (sortConfig s) (currentPage s) t.

(** ** The debounce effect (lines 50-56) and the search input (126-129) *)

(** The effect depends on [searchQuery]: when that value has changed, the
    cleanup clears the pending timer and a new 300 ms timer is set, closing
    over the new value. *)
Definition debounceEffect (before : jsstring) (s : State) : State :=
  if eqb before (searchQuery s) then s
  else setTimer (Some {| captured := searchQuery s; remaining := 300 |}) s.

(** [onChange] of the search input. *)
Definition onSearchChange (value : jsstring) (s : State) : State :=
  let s1 := setSearchQuery value s in
  let s2 := setCurrentPage (fun _ => 1) s1 in
  debounceEffect (searchQuery s) s2.

(** The timer callback: [setDebouncedQuery(searchQuery)]. *)
Definition timerCallback (t : Timer) (s : State) : State :=
  setDebouncedQuery (captured t) s.

(** [ms] milliseconds pass with no other event. *)
Definition elapse (ms : nat) (s : State) : State :=
  match timer s with
  | None => s
  | Some t =>
      if (remaining t <=? ms)%nat
      then timerCallback t (setTimer None s)
      else setTimer (Some {| captured := captured t;
                             remaining := remaining t - ms |}) s
  end.

(** ** handleSort (lines 82-88) *)

Definition handleSort (k : Helpers.SortKey) (s : State) : State :=
  let s1 :=
    setSortConfig
      (fun prev =>
         {| key := k;
            direction :=
              if Helpers.SortKey_eqb (key prev) k &&
                 match direction prev with
                 | Helpers.asc => true
                 | Helpers.desc => false
                 end
              then Helpers.desc else Helpers.asc |}) s in
  setCurrentPage (fun _ => 1) s1.

(** ** The fetch effect (lines 58-80) *)

(** A value that can be thrown or be the reason of a rejected promise: an
    [Error] instance with its [name] and [message], or anything else. *)
Inductive Thrown :=
| ErrorObject (name message : jsstring)
| OtherValue.

(** How [response.json()] settles. *)
Inductive JsonOutcome :=
| JsonResolved (results : list Helpers.User)
| JsonRejected (reason : Thrown).

(** How [fetch(url, { signal })] settles.  After [controller.abort()] the
    pending promise is rejected with an [AbortError]. *)
Inductive FetchOutcome :=
| Responded (ok : bool) (body : JsonOutcome)
| FetchRejected (reason : Thrown).

Definition AbortError : Thrown :=
  ErrorObject (lit "AbortError") (lit "The operation was aborted.").

(** Statements that update the state and either complete or throw. *)
Definition Eff (A : Type) : Type := State -> State * (A + Thrown).

Definition ret (A : Type) (a : A) : Eff A := fun s => (s, inl a).
Definition throw (A : Type) (e : Thrown) : Eff A := fun s => (s, inr e).
Definition bind (A B : Type) (m : Eff A) (k : A -> Eff B) : Eff B :=
  fun s =>
    match m s with
    | (s1, inl a) => k a s1
    | (s1, inr e) => (s1, inr e)
    end.
Definition update (f : State -> State) : Eff unit := fun s => (f s, inl tt).

Notation "x <- m ;; k" := (bind m (fun x => k))
  (at level 61, m at next level, right associativity).
Notation "m ;;; k" := (bind m (fun _ => k))
  (at level 61, right associativity).

(** [try { body } catch (err) { handler } finally { fin }] *)
Definition tryCatchFinally (body : Eff unit) (handler : Thrown -> Eff unit)
    (fin : Eff unit) : Eff unit :=
  fun s =>
    let '(s1, r1) :=
      match body s with
      | (s0, inl tt) => (s0, inl tt)
      | (s0, inr e) => handler e s0
      end in
    match fin s1 with
    | (s2, inl tt) => (s2, r1)
    | (s2, inr e) => (s2, inr e)
    end.

Definition awaitFetch (o : FetchOutcome) : Eff (bool * JsonOutcome) :=
  match o with
  | Responded ok body => ret (ok, body)
  | FetchRejected e => throw _ e
  end.

Definition awaitJson (j : JsonOutcome) : Eff (list Helpers.User) :=
  match j with
  | JsonResolved results => ret results
  | JsonRejected e => throw _ e
  end.

(** [err instanceof Error && err.name === "AbortError"] *)
Definition isAbortError (err : Thrown) : bool :=
  match err with
  | ErrorObject name _ => eqb name (lit "AbortError")
  | OtherValue => false
  end.

(** [err instanceof Error ? err.message : "An error occurred"] *)
Definition errorMessage (err : Thrown) : jsstring :=
  match err with
  | ErrorObject _ message => message
  | OtherValue => lit "An error occurred"
  end.

(** [fetchUsers], run against the way the request settles.  The [return] in
    the catch block ends the handler; the finally block runs after it. *)
Definition fetchUsers (o : FetchOutcome) : Eff unit :=
  tryCatchFinally
    (response <- awaitFetch o ;;
     (if negb (fst response)
      then throw unit (ErrorObject (lit "Error") (lit "Failed to fetch data"))
      else ret tt) ;;;
     data <- awaitJson (snd response) ;;
     update (setUsers data))
    (fun err =>
       if isAbortError err then ret tt
       else update (setError (Some (errorMessage err))))
    (update (setLoading false)).

(** The state once the request has settled. *)
Definition afterFetch (o : FetchOutcome) (s : State) : State :=
  fst (fetchUsers o s).

(** The three cells the fetch effect writes. *)
Definition fetchState (s : State) : list Helpers.User * bool * option jsstring :=
  (users s, loading s, error s).

(** ** Derived values (lines 91-103) and the pagination buttons *)

(** [Math.ceil(length / pageSize)] for a positive page size. *)
Definition totalPages (length pageSize : Z) : Z :=
  (length + pageSize - 1) / pageSize.

(** [setCurrentPage((prev) => Math.max(prev - 1, 1))] *)
Definition previousPage (s : State) : State :=
  setCurrentPage (fun prev => Z.max (prev - 1) 1) s.

(** [setCurrentPage((prev) => Math.min(prev + 1, totalPages))] *)
Definition nextPage (total : Z) (s : State) : State :=
  setCurrentPage (fun prev => Z.min (prev + 1) total) s.

Section Derived.

Variable toLowerCase : jsstring -> jsstring.
Variable Array_sort :
  (Helpers.User -> Helpers.User -> Z) -> list Helpers.User -> list Helpers.User.

Definition filteredUsers (s : State) : list Helpers.User :=
  Helpers.filterUsers (users s) (debouncedQuery s).

Definition sortedUsers (s : State) : list Helpers.User :=
  Helpers.sortUsers toLowerCase Array_sort (filteredUsers s)
    {| Helpers.key := key (sortConfig s);
       Helpers.direction := Some (direction (sortConfig s)) |}.

Definition paginatedUsers (s : State) : list Helpers.User :=
  Helpers.paginateData (sortedUsers s) (currentPage s) pageSize.

(** [Math.ceil(sortedUsers.length / pageSize)] *)
Definition renderedTotalPages (s : State) : Z :=
  totalPages (Z.of_nat (List.length (sortedUsers s))) pageSize.

(** A click on Previous; the button is disabled on page 1. *)
Definition clickPrevious (s : State) : State :=
  if currentPage s =? 1 then s else previousPage s.

(** A click on Next; the button is disabled on the last page and when there
    is no page. *)
Definition clickNext (s : State) : State :=
  let total := renderedTotalPages s in
  if (currentPage s =? total) || (total =? 0) then s else nextPage total s.

End Derived.

End DataTable.

(* ================================================================== *)
(** * Instances of the host functions *)
(* ================================================================== *)

Module Host.
Import JS.
Local Open Scope Z_scope.

(** [toLowerCase] on strings whose only cased letters are ASCII: the code
    units of A-Z move to a-z, every other one is kept. *)
Definition asciiToLowerCase (s : jsstring) : jsstring :=
  map (fun c => if ((65 <=? c) && (c <=? 90))%N then (c + 32)%N else c) s.

(** What ECMAScript asks of a comparator handed to [sort] (a "consistent
    comparator"): equal-to-zero is an equivalence, and negative and positive
    are transitive. *)
Record consistent (A : Type) (cmp : A -> A -> Z) : Prop := {
  cmp_refl : forall a, cmp a a = 0;
  cmp_sym : forall a b, cmp a b = 0 -> cmp b a = 0;
  cmp_trans_eq : forall a b c, cmp a b = 0 -> cmp b c = 0 -> cmp a c = 0;
  cmp_trans_lt : forall a b c, cmp a b < 0 -> cmp b c < 0 -> cmp a c < 0;
  cmp_trans_gt : forall a b c, cmp a b > 0 -> cmp b c > 0 -> cmp a c > 0
}.

(** What [sort] then guarantees in every edition of the language: the result
    is a rearrangement of the input in which no element is followed by one
    that compares below it. *)
Definition sorts (A : Type) (srt : (A -> A -> Z) -> list A -> list A) : Prop :=
  forall cmp l, consistent cmp ->
    Permutation l (srt cmp l) /\ Sorted (fun a b => cmp a b <= 0) (srt cmp l).

(** What it guarantees since ECMAScript 2019 in addition: elements that
    compare equal keep their relative order. *)
Definition stable (A : Type) (srt : (A -> A -> Z) -> list A -> list A) : Prop :=
  forall cmp l, consistent cmp ->
    forall a, filter (fun x => cmp a x =? 0) (srt cmp l)
              = filter (fun x => cmp a x =? 0) l.

(** Insertion sort, in two flavours.  [insertBefore] puts the new element in
    front of the elements it ties with, [insertAfter] behind them. *)
Fixpoint insertBefore (A : Type) (cmp : A -> A -> Z) (x : A) (l : list A) : list A :=
  match l with
  | [] => [x]
  | y :: l' => if cmp x y <=? 0 then x :: l else y :: insertBefore cmp x l'
  end.

Fixpoint insertAfter (A : Type) (cmp : A -> A -> Z) (x : A) (l : list A) : list A :=
  match l with
  | [] => [x]
  | y :: l' => if cmp x y <? 0 then x :: l else y :: insertAfter cmp x l'
  end.

(** A stable sort: a model of [Array.prototype.sort] as specified since
    ECMAScript 2019. *)
Definition stableSort (A : Type) (cmp : A -> A -> Z) (l : list A) : list A :=
  fold_right (insertBefore cmp) [] l.

(** A sort that reverses the order of tied elements: allowed before
    ECMAScript 2019, when stability was left to the engine. *)
Definition tieReversingSort (A : Type) (cmp : A -> A -> Z) (l : list A) : list A :=
  fold_right (insertAfter cmp) [] l.

(** The iterative insertion sort: the elements are taken from the left and
    each is put behind the elements it ties with.  Another stable sort, a
    second model of [Array.prototype.sort] since ECMAScript 2019. *)
Definition insertionSort (A : Type) (cmp : A -> A -> Z) (l : list A) : list A :=
  fold_left (fun acc x => insertAfter cmp x acc) l [].

End Host.

(* ================================================================== *)
(** * Notions used to state the properties *)
(* ================================================================== *)

Module Props.
Import JS Helpers.
Local Open Scope Z_scope.

(** [Subseq l m]: [l] is [m] with some of its elements left out. *)
Inductive Subseq (A : Type) : list A -> list A -> Prop :=
| Subseq_nil : Subseq [] []
| Subseq_keep (x : A) (l m : list A) : Subseq l m -> Subseq (x :: l) (x :: m)
| Subseq_drop (x : A) (l m : list A) : Subseq l m -> Subseq l (x :: m).

(** Equality of two derived keys. *)
Definition keyEqb (k : SortKey) : SortValue k -> SortValue k -> bool :=
  match k with
  | K_dob_age => Z.eqb
  | _ => eqb
  end.

(** [x <= y] on derived keys: numbers by value, strings by code units. *)
Definition keyLe (k : SortKey) : SortValue k -> SortValue k -> bool :=
  match k with
  | K_dob_age => Z.leb
  | _ => str_le
  end.

(** [x <= y] on derived keys with strings compared by code points. *)
Definition keyLeCodePoint (k : SortKey) : SortValue k -> SortValue k -> bool :=
  match k with
  | K_dob_age => Z.leb
  | _ => codePoint_le
  end.

Section Keys.
Variable toLowerCase : jsstring -> jsstring.

(** Two neighbours [a], [b] of a sorted result are in order: [key a <= key b]
    when ascending, [key a >= key b] when descending. *)
Definition inOrder (k : SortKey) (d : AscDesc) (a b : User) : Prop :=
  match d with
  | asc => keyLe k (getSortValue toLowerCase a k) (getSortValue toLowerCase b k) = true
  | desc => keyLe k (getSortValue toLowerCase b k) (getSortValue toLowerCase a k) = true
  end.

(** The records of [l] whose derived key is [v], in the order of [l]. *)
Definition withKey (k : SortKey) (v : SortValue k) (l : list User) : list User :=
  filter (fun u => keyEqb k v (getSortValue toLowerCase u k)) l.

End Keys.

(** The pages 1, 2, ..., [totalPages] of [data]. *)
Definition allPages (T : Type) (data : list T) (pageSize : Z) : list (list T) :=
  map (fun p => paginateData data (Z.of_nat p) pageSize)
      (seq 1 (Z.to_nat (DataTable.totalPages (Z.of_nat (List.length data)) pageSize))).

(** Sample records. *)
Definition sample (g f l e : string) (a : Z) : User :=
  {| gender := lit g;
     name := {| title := lit "Ms"; first := lit f; last := lit l |};
     email := lit e;
     dob := {| date := lit "1990-01-01T00:00:00.000Z"; age := a |} |}.

Definition amy : User := sample "female" "Amy" "Lee" "amy@x.com" 30.
Definition bo : User := sample "male" "Bo" "Ray" "bo@x.com" 25.
Definition tam : User := sample "female" "Tam" "Ortiz" "tamale@x.com" 25.

(** Two records whose first names are one character each: U+F900, one code
    unit, and U+20000, the surrogate pair D840 DC00. *)
Definition named (f : jsstring) : User :=
  {| gender := lit "female";
     name := {| title := lit "Ms"; first := f; last := lit "Li" |};
     email := lit "li@x.com";
     dob := {| date := lit "1990-01-01T00:00:00.000Z"; age := 30 |} |}.

Definition uF900 : User := named [63744%N].
Definition u20000 : User := named [55360%N; 56320%N].

(** A fetched batch of six records, two pages of five. *)
Definition roster : list User :=
  [ amy; bo; tam;
    sample "male" "Cal" "Diaz" "cal@x.com" 41;
    sample "female" "Dee" "Moss" "dee@x.com" 52;
    sample "male" "Eli" "Kerr" "eli@x.com" 33 ].

(** The table once the six records are loaded and the user has moved to
    page 2. *)
Definition onPage2 : DataTable.State :=
  DataTable.clickNext Host.asciiToLowerCase (@Host.stableSort User)
    (DataTable.elapse 300
       (DataTable.afterFetch
          (DataTable.Responded true (DataTable.JsonResolved roster))
          DataTable.mount)).

(** From there the user types "Amy", moves to page 2 again before the
    timer runs, and the query is committed: one record is left, one page,
    and the page is 2. *)
Definition pastTheEnd : DataTable.State :=
  DataTable.elapse 300
    (DataTable.clickNext Host.asciiToLowerCase (@Host.stableSort User)
       (DataTable.elapse 100 (DataTable.onSearchChange (lit "Amy") onPage2))).

Definition twelve : list Z := [1; 2; 3; 4; 5; 6; 7; 8; 9; 10; 11; 12].

End Props.

(* ================================================================== *)
(** * DataTable.tsx: what is rendered, and the events of a mounted table *)
(* ================================================================== *)

Module Render.
Import JS.
Local Open Scope Z_scope.

(** The three glyphs of [SortIcon] (lines 23-32). *)
Inductive Icon := UpDown | Up | Down.

Definition SortIcon (column : Helpers.SortKey) (sortConfig : Helpers.SortConfig) : Icon :=
  if negb (Helpers.SortKey_eqb (Helpers.key sortConfig) column)
     || match Helpers.direction sortConfig with None => true | Some _ => false end
  then UpDown
  else match Helpers.direction sortConfig with
       | Some Helpers.asc => Up
       | _ => Down
       end.

(** The component hands its own [sortConfig] to [SortIcon]. *)
Definition asSortConfig (c : DataTable.SortState) : Helpers.SortConfig :=
  {| Helpers.key := DataTable.key c;
     Helpers.direction := Some (DataTable.direction c) |}.

(** The column headers (lines 143-148), by key. *)
Definition columns : list Helpers.SortKey :=
  [Helpers.K_name_first; Helpers.K_gender; Helpers.K_dob_age; Helpers.K_email].

(** The [aria-sort] attribute of a header (lines 154-162). *)
Definition ariaSort (column : Helpers.SortKey) (sortConfig : DataTable.SortState) : jsstring :=
  if Helpers.SortKey_eqb (DataTable.key sortConfig) column
  then match DataTable.direction sortConfig with
       | Helpers.asc => lit "ascending"
       | Helpers.desc => lit "descending"
       end
  else lit "none".

Section Footer.

Variable toLowerCase : jsstring -> jsstring.
Variable Array_sort :
  (Helpers.User -> Helpers.User -> Z) -> list Helpers.User -> list Helpers.User.

Let sortedLength (s : DataTable.State) : Z :=
  Z.of_nat (List.length (DataTable.sortedUsers toLowerCase Array_sort s)).

(** "Showing [from] to [to] of [n] records" (lines 214-218). *)
Definition showingFrom (s : DataTable.State) : Z :=
  if 0 <? sortedLength s
  then (DataTable.currentPage s - 1) * DataTable.pageSize + 1
  else 0.

Definition showingTo (s : DataTable.State) : Z :=
  Z.min (DataTable.currentPage s * DataTable.pageSize) (sortedLength s).

(** "Page [p] of [totalPages || 1]" (line 222). *)
Definition shownTotalPages (s : DataTable.State) : Z :=
  let total := DataTable.renderedTotalPages toLowerCase Array_sort s in
  if total =? 0 then 1 else total.

End Footer.

End Render.

Module Session.
Import JS DataTable.
Local Open Scope Z_scope.

(** What can happen to a mounted table: the request settles, the user types
    in the search box, time passes, a header or a pagination button is
    clicked. *)
Inductive Event :=
| Settle (o : FetchOutcome)
| Typing (value : jsstring)
| Wait (ms : nat)
| SortBy (k : Helpers.SortKey)
| Previous
| Next.

(** The search box, the headers and the buttons are rendered only when
    neither [if (loading)] nor [if (error)] returns early (lines 105-106).
    [error] is [string | null]: [null] and the empty string are both falsy,
    so an error with an empty message does not hide the table. *)
Definition interactive (s : State) : bool :=
  negb (loading s) &&
  match error s with
  | None => true
  | Some [] => true
  | Some (_ :: _) => false
  end.

Section Steps.

Variable toLowerCase : jsstring -> jsstring.
Variable Array_sort :
  (Helpers.User -> Helpers.User -> Z) -> list Helpers.User -> list Helpers.User.

Definition step (s : State) (e : Event) : State :=
  match e with
  | Settle o => afterFetch o s
  | Wait ms => elapse ms s
  | Typing value => if interactive s then onSearchChange value s else s
  | SortBy k => if interactive s then handleSort k s else s
  | Previous => if interactive s then clickPrevious s else s
  | Next => if interactive s then clickNext toLowerCase Array_sort s else s
  end.

(** The state after a sequence of events, from the mounted state. *)
Definition run (events : list Event) : State := fold_left step events mount.

End Steps.

(** Two properties of a state, kept by every step: the page is at least 1;
    a pending timer holds the current search text, and with no timer
    pending the debounced query is the search text. *)
Definition pageInv (s : State) : Prop := 1 <= currentPage s.

Definition timerInv (s : State) : Prop :=
  match timer s with
  | Some t => captured t = searchQuery s
  | None => debouncedQuery s = searchQuery s
  end.

End Session.

(* ================================================================== *)
(** * Facts about strings *)
(* ================================================================== *)

Module JSFacts.
Import JS.

Lemma eqb_eq (s t : jsstring) : eqb s t = true <-> s = t.
Proof.
  revert t; induction s as [|a s IH]; intros [|b t]; simpl; split;
    try easy.
  - rewrite andb_true_iff, N.eqb_eq, IH. now intros [-> ->].
  - intros [= -> ->]. rewrite N.eqb_refl. now apply IH.
Qed.

Lemma eqb_refl (s : jsstring) : eqb s s = true.
Proof. now apply eqb_eq. Qed.

Lemma eqb_neq (s t : jsstring) : eqb s t = false <-> s <> t.
Proof.
  rewrite <- eqb_eq. destruct (eqb s t); split; congruence.
Qed.

Lemma str_lt_irrefl (s : jsstring) : str_lt s s = false.
Proof.
  induction s as [|a s IH]; simpl; trivial.
  now rewrite N.ltb_irrefl, N.eqb_refl, IH.
Qed.

Lemma str_lt_cons (a b : N) (s t : jsstring) :
  str_lt (a :: s) (b :: t) = true <->
  (a < b)%N \/ (a = b /\ str_lt s t = true).
Proof.
  simpl. rewrite orb_true_iff, andb_true_iff, N.ltb_lt, N.eqb_eq. tauto.
Qed.

Lemma str_lt_trans (s t u : jsstring) :
  str_lt s t = true -> str_lt t u = true -> str_lt s u = true.
Proof.
  revert t u; induction s as [|a s IH]; intros [|b t] [|c u];
    try (simpl; congruence).
  rewrite !str_lt_cons. intros [H1|[-> H1]] [H2|[-> H2]].
  - left; lia.
  - now left.
  - now left.
  - right; split; trivial. eapply IH; eassumption.
Qed.

Lemma str_lt_total (s t : jsstring) :
  str_lt s t = false -> str_lt t s = false -> s = t.
Proof.
  revert t; induction s as [|a s IH]; intros [|b t]; simpl; try easy.
  rewrite !orb_false_iff, !andb_false_iff, !N.ltb_ge, !N.eqb_neq.
  intros [H1 H2] [H3 H4].
  assert (a = b) by lia. subst b.
  f_equal. apply IH; [destruct H2 | destruct H4]; congruence.
Qed.

Lemma str_lt_asym (s t : jsstring) :
  str_lt s t = true -> str_lt t s = false.
Proof.
  intros H. destruct (str_lt t s) eqn:E; trivial.
  pose proof (@str_lt_trans _ _ _ H E) as K.
  now rewrite str_lt_irrefl in K.
Qed.

(** [s <= t] is [s < t] or [s = t]. *)
Lemma str_le_iff (s t : jsstring) :
  str_le s t = true <-> str_lt s t = true \/ s = t.
Proof.
  unfold str_le. rewrite negb_true_iff. split.
  - intros H. destruct (str_lt s t) eqn:E; [now left|right].
    now apply str_lt_total.
  - intros [H| ->]; [now apply str_lt_asym | apply str_lt_irrefl].
Qed.

(** Without surrogates the code points are the code units, and the two
    orders are one. *)
Lemma codePoints_no_surrogate (s : jsstring) :
  forallb (fun c => negb (isHighSurrogate c)) s = true -> codePoints s = s.
Proof.
  induction s as [|a s IH]; trivial.
  cbn [forallb]. rewrite andb_true_iff, negb_true_iff. intros [Ha Hs].
  cbn [codePoints]. rewrite Ha. cbn [andb].
  destruct s as [|b s]; trivial. f_equal. now apply IH.
Qed.

Lemma codePoint_lt_no_surrogate (s t : jsstring) :
  forallb (fun c => negb (isHighSurrogate c)) s = true ->
  forallb (fun c => negb (isHighSurrogate c)) t = true ->
  codePoint_lt s t = str_lt s t.
Proof.
  intros Hs Ht. unfold codePoint_lt.
  now rewrite !codePoints_no_surrogate.
Qed.

(** *** includes *)

Lemma startsWith_app (s p : jsstring) :
  startsWith s p = true <-> exists r, s = p ++ r.
Proof.
  revert s; induction p as [|a p IH]; intros s; simpl.
  - split; [intros _; now exists s | reflexivity].
  - destruct s as [|b s].
    + split; [easy | intros [r [=]]].
    + rewrite andb_true_iff, N.eqb_eq, IH. split.
      * intros [-> [r ->]]. now exists r.
      * intros [r [= -> ->]]. split; trivial. now exists r.
Qed.

(** [includes s p] holds exactly when [p] occurs in [s]. *)
Lemma includes_iff (s p : jsstring) :
  includes s p = true <-> exists l r, s = l ++ p ++ r.
Proof.
  induction s as [|a s IH]; simpl.
  - rewrite orb_false_r, startsWith_app. split.
    + intros [r H]. now exists [], r.
    + intros [l [r H]]. destruct l as [|x l]; [|discriminate].
      now exists r.
  - rewrite orb_true_iff, startsWith_app, IH. split.
    + intros [[r H]|[l [r H]]].
      * now exists [], r.
      * exists (a :: l), r. now rewrite H.
    + intros [[|x l] [r H]].
      * left. now exists r.
      * right. injection H as -> ->. now exists l, r.
Qed.

Lemma includes_In (s p : jsstring) (c : N) :
  includes s p = true -> In c p -> In c s.
Proof.
  rewrite includes_iff. intros [l [r ->]] H.
  rewrite !in_app_iff. tauto.
Qed.

(** A search string without a space that occurs in ["a b"] occurs in [a] or
    in [b]. *)
Lemma startsWith_sep (a b p : jsstring) (c : N) :
  ~ In c p -> startsWith (a ++ c :: b) p = true -> startsWith a p = true.
Proof.
  revert a; induction p as [|x p IH]; intros a Hc; simpl; trivial.
  destruct a as [|y a]; simpl.
  - rewrite andb_true_iff, N.eqb_eq. intros [-> _]. simpl in Hc. tauto.
  - rewrite !andb_true_iff. intros [H1 H2]. split; trivial.
    apply IH; trivial. simpl in Hc. tauto.
Qed.

Lemma includes_sep (a b p : jsstring) (c : N) :
  ~ In c p -> p <> [] ->
  includes (a ++ c :: b) p = includes a p || includes b p.
Proof.
  intros Hc Hp. induction a as [|y a IH]; simpl.
  - destruct p as [|x p]; [congruence|]. simpl.
    destruct (N.eqb_spec x c) as [->|_]; simpl; trivial.
    simpl in Hc. tauto.
  - rewrite IH. rewrite <- orb_assoc. f_equal.
    destruct (startsWith (y :: a ++ c :: b) p) eqn:E.
    + change (y :: a ++ c :: b) with ((y :: a) ++ c :: b) in E.
      now rewrite (@startsWith_sep (y :: a) b p c Hc E).
    + destruct (startsWith (y :: a) p) eqn:F; trivial.
      apply startsWith_app in F. destruct F as [r F].
      assert (K : startsWith (y :: a ++ c :: b) p = true).
      { apply startsWith_app. exists (r ++ c :: b).
        change (y :: a ++ c :: b) with ((y :: a) ++ c :: b).
        now rewrite F, <- app_assoc. }
      congruence.
Qed.

(** *** trim *)

Lemma trimStart_whitespace (s : jsstring) :
  forallb isWhiteSpace s = true -> trimStart s = [].
Proof.
  induction s as [|c s IH]; simpl; trivial.
  rewrite andb_true_iff. intros [-> H]. auto.
Qed.

Lemma trimStart_nil_inv (s : jsstring) :
  trimStart s = [] -> forallb isWhiteSpace s = true.
Proof.
  induction s as [|c s IH]; simpl; trivial.
  destruct (isWhiteSpace c); simpl; [exact IH | discriminate].
Qed.

Lemma trimStart_head (s r : jsstring) (c : N) :
  trimStart s = c :: r -> isWhiteSpace c = false.
Proof.
  induction s as [|x s IH]; simpl; [discriminate|].
  destruct (isWhiteSpace x) eqn:W; [exact IH|].
  now intros [= -> _].
Qed.

(** A query is empty after trimming exactly when it is made of white space
    only. *)
Lemma trim_nil_iff (s : jsstring) :
  trim s = [] <-> forallb isWhiteSpace s = true.
Proof.
  unfold trim, trimEnd. split.
  - intros H. destruct (trimStart s) as [|c r] eqn:E.
    + now apply trimStart_nil_inv.
    + exfalso.
      apply (f_equal (@rev N)) in H. rewrite rev_involutive in H.
      change (rev (@nil N)) with (@nil N) in H.
      apply trimStart_nil_inv in H.
      rewrite forallb_forall in H.
      assert (Hc : isWhiteSpace c = true).
      { apply H. rewrite <- in_rev. now left. }
      apply trimStart_head in E. congruence.
  - intros H. now rewrite (@trimStart_whitespace _ H).
Qed.

(** *** toString *)

Lemma string_of_uint_digits (d : Decimal.uint) :
  forallb digitOrMinus (lit (NilEmpty.string_of_uint d)) = true.
Proof.
  induction d; simpl; trivial.
Qed.

Lemma toString_digits (n : Z) : forallb digitOrMinus (toString n) = true.
Proof.
  unfold toString, NilZero.string_of_int.
  destruct (Z.to_int n) as [d|d]; unfold NilZero.string_of_uint.
  - destruct d; try apply string_of_uint_digits. reflexivity.
  - simpl. destruct d; try apply string_of_uint_digits; reflexivity.
Qed.

(** The decimal numeral of an age contains no letter. *)
Lemma toString_no_letter (n : Z) (p : jsstring) (c : N) :
  In c p -> digitOrMinus c = false -> includes (toString n) p = false.
Proof.
  intros Hin Hc. destruct (includes (toString n) p) eqn:E; trivial.
  pose proof (@includes_In _ _ _ E Hin) as K.
  pose proof (toString_digits n) as D. rewrite forallb_forall in D.
  specialize (D _ K). congruence.
Qed.

End JSFacts.

(* ================================================================== *)
(** * Facts about the host sort *)
(* ================================================================== *)

Module HostFacts.
Import Host.
Local Open Scope Z_scope.

Lemma Sorted_weaken (A : Type) (R S : A -> A -> Prop) (l : list A) :
  (forall a b, R a b -> S a b) -> Sorted R l -> Sorted S l.
Proof.
  intros RS. induction 1 as [|a l _ IH Hd]; constructor; trivial.
  destruct Hd; constructor; auto.
Qed.

Section Insertion.
Variable A : Type.
Variable cmp : A -> A -> Z.
Hypothesis C : consistent cmp.

Lemma cmp_flip (a b : A) : cmp a b > 0 -> cmp b a < 0.
Proof.
  intros H.
  destruct (Z.lt_trichotomy (cmp b a) 0) as [K|[K|K]]; trivial.
  - apply (cmp_sym C) in K. lia.
  - pose proof (cmp_trans_gt C a b a H (Z.lt_gt _ _ K)) as T.
    rewrite (cmp_refl C) in T. lia.
Qed.

(** Both insertions keep the elements. *)
Lemma insertBefore_perm (x : A) (l : list A) :
  Permutation (x :: l) (insertBefore cmp x l).
Proof.
  induction l as [|y l IH]; simpl; trivial.
  destruct (cmp x y <=? 0); trivial.
  rewrite perm_swap. now constructor.
Qed.

Lemma insertAfter_perm (x : A) (l : list A) :
  Permutation (x :: l) (insertAfter cmp x l).
Proof.
  induction l as [|y l IH]; simpl; trivial.
  destruct (cmp x y <? 0); trivial.
  rewrite perm_swap. now constructor.
Qed.

Let le (a b : A) : Prop := cmp a b <= 0.

(** Both insertions keep a sorted list sorted. *)
Lemma insertBefore_hd (x y : A) (l : list A) :
  le y x -> HdRel le y l -> HdRel le y (insertBefore cmp x l).
Proof.
  intros Hyx Hd. destruct l as [|z l]; simpl.
  - now constructor.
  - inversion_clear Hd. destruct (cmp x z <=? 0); now constructor.
Qed.

Lemma insertBefore_sorted (x : A) (l : list A) :
  Sorted le l -> Sorted le (insertBefore cmp x l).
Proof.
  induction 1 as [|y l Hs IH Hd]; simpl.
  - repeat constructor.
  - destruct (Z.leb_spec (cmp x y) 0) as [H|H].
    + repeat constructor; trivial.
    + constructor; trivial. apply insertBefore_hd; trivial.
      unfold le. apply Z.lt_gt, cmp_flip in H. lia.
Qed.

Lemma insertAfter_hd (x y : A) (l : list A) :
  le y x -> HdRel le y l -> HdRel le y (insertAfter cmp x l).
Proof.
  intros Hyx Hd. destruct l as [|z l]; simpl.
  - now constructor.
  - inversion_clear Hd. destruct (cmp x z <? 0); now constructor.
Qed.

Lemma insertAfter_sorted (x : A) (l : list A) :
  Sorted le l -> Sorted le (insertAfter cmp x l).
Proof.
  induction 1 as [|y l Hs IH Hd]; simpl.
  - repeat constructor.
  - destruct (Z.ltb_spec (cmp x y) 0) as [H|H].
    + repeat constructor; trivial. unfold le; lia.
    + constructor; trivial. apply insertAfter_hd; trivial.
      unfold le. destruct (Z.eq_dec (cmp x y) 0) as [E|N].
      * rewrite (cmp_sym C _ _ E). lia.
      * assert (G : cmp x y > 0) by lia. apply cmp_flip in G. lia.
Qed.

(** [insertBefore] does not move the new element past one it ties with. *)
Lemma insertBefore_filter (a x : A) (l : list A) :
  filter (fun z => cmp a z =? 0) (insertBefore cmp x l)
  = filter (fun z => cmp a z =? 0) (x :: l).
Proof.
  induction l as [|y l IH]; trivial.
  cbn [insertBefore]. destruct (Z.leb_spec (cmp x y) 0) as [H|H]; trivial.
  cbn [filter] in *. rewrite IH.
  destruct (Z.eqb_spec (cmp a x) 0) as [Ex|Nx];
    destruct (Z.eqb_spec (cmp a y) 0) as [Ey|Ny]; trivial.
  pose proof (cmp_trans_eq C _ _ _ (cmp_sym C _ _ Ex) Ey). lia.
Qed.

End Insertion.

Theorem stableSort_sorts (A : Type) : sorts (@stableSort A).
Proof.
  intros cmp l C. unfold stableSort. induction l as [|x l [IHp IHs]]; simpl.
  - split; constructor.
  - split.
    + rewrite <- insertBefore_perm. now constructor.
    + now apply insertBefore_sorted.
Qed.

Theorem tieReversingSort_sorts (A : Type) : sorts (@tieReversingSort A).
Proof.
  intros cmp l C. unfold tieReversingSort.
  induction l as [|x l [IHp IHs]]; simpl.
  - split; constructor.
  - split.
    + rewrite <- insertAfter_perm. now constructor.
    + now apply insertAfter_sorted.
Qed.

Theorem stableSort_stable (A : Type) : stable (@stableSort A).
Proof.
  intros cmp l C a. unfold stableSort. induction l as [|x l IH]; trivial.
  cbn [fold_right]. rewrite insertBefore_filter by trivial.
  cbn [filter]. now rewrite IH.
Qed.

(** A stable sort returns elements of its input only. *)
Lemma stable_In (A : Type) (srt : (A -> A -> Z) -> list A -> list A)
    (cmp : A -> A -> Z) (l : list A) (x : A) :
  stable srt -> consistent cmp -> In x (srt cmp l) -> In x l.
Proof.
  intros St C H.
  assert (K : In x (filter (fun z => cmp x z =? 0) (srt cmp l))).
  { apply filter_In. split; trivial. now rewrite (cmp_refl C), Z.eqb_refl. }
  rewrite (St cmp l C x) in K. now apply filter_In in K.
Qed.

End HostFacts.

(* ================================================================== *)
(** * sortUsers *)
(* ================================================================== *)

Module SortFacts.
Import JS Helpers Props.
Local Open Scope Z_scope.

Section Keys.
Variable toLowerCase : jsstring -> jsstring.

(** [<] on the derived keys of one column is a strict total order. *)
Lemma lessThan_irrefl (k : SortKey) (x : SortValue k) : lessThan k x x = false.
Proof.
  destruct k; simpl; try apply JSFacts.str_lt_irrefl. apply Z.ltb_irrefl.
Qed.

Lemma lessThan_trans (k : SortKey) (x y z : SortValue k) :
  lessThan k x y = true -> lessThan k y z = true -> lessThan k x z = true.
Proof.
  destruct k; simpl; try apply JSFacts.str_lt_trans.
  rewrite !Z.ltb_lt. lia.
Qed.

Lemma lessThan_total (k : SortKey) (x y : SortValue k) :
  lessThan k x y = false -> lessThan k y x = false -> x = y.
Proof.
  destruct k; simpl; try apply JSFacts.str_lt_total.
  rewrite !Z.ltb_ge. lia.
Qed.

Lemma lessThan_asym (k : SortKey) (x y : SortValue k) :
  lessThan k x y = true -> lessThan k y x = false.
Proof.
  intros H. destruct (lessThan k y x) eqn:E; trivial.
  pose proof (lessThan_trans k _ _ _ H E) as T.
  now rewrite lessThan_irrefl in T.
Qed.

Lemma keyEqb_eq (k : SortKey) (x y : SortValue k) :
  keyEqb k x y = true <-> x = y.
Proof.
  destruct k; simpl; try apply JSFacts.eqb_eq. apply Z.eqb_eq.
Qed.

Lemma keyLe_iff (k : SortKey) (x y : SortValue k) :
  keyLe k x y = true <-> lessThan k y x = false.
Proof.
  destruct k; simpl; unfold str_le; rewrite ?negb_true_iff; try tauto.
  rewrite Z.leb_le, Z.ltb_ge. tauto.
Qed.

(** [goesFirst d x y]: key [x] is strictly ahead of key [y] in direction
    [d]. *)
Let goesFirst (k : SortKey) (d : AscDesc) (x y : SortValue k) : bool :=
  match d with
  | asc => lessThan k x y
  | desc => lessThan k y x
  end.

Let keyOf (u : User) (k : SortKey) : SortValue k := getSortValue toLowerCase u k.

(** What the sign of the comparator's result says about the two keys. *)
Lemma compareUsers_neg (k : SortKey) (d : AscDesc) (a b : User) :
  compareUsers toLowerCase k d a b < 0 <->
  goesFirst k d (keyOf a k) (keyOf b k) = true.
Proof.
  unfold compareUsers, greaterThan, goesFirst, keyOf.
  destruct (lessThan k (getSortValue toLowerCase a k) (getSortValue toLowerCase b k)) eqn:E1;
  destruct (lessThan k (getSortValue toLowerCase b k) (getSortValue toLowerCase a k)) eqn:E2;
  destruct d; try (split; (lia || congruence)).
  all: rewrite (lessThan_asym _ _ _ E1) in E2; discriminate.
Qed.

Lemma compareUsers_pos (k : SortKey) (d : AscDesc) (a b : User) :
  compareUsers toLowerCase k d a b > 0 <->
  goesFirst k d (keyOf b k) (keyOf a k) = true.
Proof.
  unfold compareUsers, greaterThan, goesFirst, keyOf.
  destruct (lessThan k (getSortValue toLowerCase a k) (getSortValue toLowerCase b k)) eqn:E1;
  destruct (lessThan k (getSortValue toLowerCase b k) (getSortValue toLowerCase a k)) eqn:E2;
  destruct d; try (split; (lia || congruence)).
  all: rewrite (lessThan_asym _ _ _ E1) in E2; discriminate.
Qed.

Lemma compareUsers_zero (k : SortKey) (d : AscDesc) (a b : User) :
  compareUsers toLowerCase k d a b = 0 <-> keyOf a k = keyOf b k.
Proof.
  unfold compareUsers, greaterThan, keyOf.
  destruct (lessThan k (getSortValue toLowerCase a k) (getSortValue toLowerCase b k)) eqn:E1;
  [|destruct (lessThan k (getSortValue toLowerCase b k) (getSortValue toLowerCase a k)) eqn:E2].
  - split; [destruct d; lia|]. intros H. rewrite H, lessThan_irrefl in E1.
    discriminate.
  - split; [destruct d; lia|]. intros H. rewrite H, lessThan_irrefl in E2.
    discriminate.
  - split; trivial. intros _. now apply lessThan_total.
Qed.

Lemma goesFirst_trans (k : SortKey) (d : AscDesc) (x y z : SortValue k) :
  goesFirst k d x y = true -> goesFirst k d y z = true ->
  goesFirst k d x z = true.
Proof.
  destruct d; simpl; intros H1 H2; eapply lessThan_trans; eassumption.
Qed.

(** The comparator of [sortUsers] is a consistent comparator. *)
Lemma compareUsers_consistent (k : SortKey) (d : AscDesc) :
  Host.consistent (compareUsers toLowerCase k d).
Proof.
  constructor.
  - intros a. now apply compareUsers_zero.
  - intros a b. rewrite !compareUsers_zero. congruence.
  - intros a b c. rewrite !compareUsers_zero. congruence.
  - intros a b c. rewrite !compareUsers_neg. apply goesFirst_trans.
  - intros a b c. rewrite !compareUsers_pos. intros H1 H2.
    eapply goesFirst_trans; eassumption.
Qed.

(** A non-positive result puts the two records in order. *)
Lemma compareUsers_inOrder (k : SortKey) (d : AscDesc) (a b : User) :
  compareUsers toLowerCase k d a b <= 0 -> inOrder toLowerCase k d a b.
Proof.
  intros H. unfold inOrder.
  assert (G : goesFirst k d (keyOf b k) (keyOf a k) = false).
  { destruct (goesFirst k d (keyOf b k) (keyOf a k)) eqn:E; trivial.
    apply compareUsers_pos in E. lia. }
  unfold goesFirst, keyOf in G.
  destruct d; rewrite keyLe_iff; trivial.
Qed.

(** The comparator ties two records exactly when their keys are equal. *)
Lemma compareUsers_tie (k : SortKey) (d : AscDesc) (a b : User) :
  (compareUsers toLowerCase k d a b =? 0)
  = keyEqb k (getSortValue toLowerCase a k) (getSortValue toLowerCase b k).
Proof.
  apply eq_true_iff_eq.
  now rewrite Z.eqb_eq, keyEqb_eq, compareUsers_zero.
Qed.

End Keys.


Lemma filter_none (A : Type) (f : A -> bool) (l : list A) :
  existsb f l = false -> filter f l = [].
Proof.
  induction l as [|x l IH]; simpl; trivial.
  rewrite orb_false_iff. intros [-> H]. auto.
Qed.

(** C7 (as amended): when the host sort sorts, every two neighbours of
    [sortUsers]'s result are in order by derived key, key(a) <= key(b) when
    ascending and key(a) >= key(b) when descending, where ages compare
    numerically and the lower-cased strings compare by UTF-16 code units. *)
Theorem sortUsers_sorted_by_code_units
    (toLowerCase : jsstring -> jsstring)
    (Array_sort : (User -> User -> Z) -> list User -> list User)
    (users : list User) (k : SortKey) (d : AscDesc) :
  Host.sorts Array_sort ->
  Sorted (inOrder toLowerCase k d)
         (sortUsers toLowerCase Array_sort users
            {| key := k; direction := Some d |}).
Proof.
  intros Hs. unfold sortUsers. cbn [direction key].
  destruct (Hs (compareUsers toLowerCase k d) users
               (compareUsers_consistent toLowerCase k d)) as [_ S].
  revert S. apply HostFacts.Sorted_weaken.
  intros a b. apply compareUsers_inOrder.
Qed.

Lemma sortUsers_sorted_by_code_units_witness :
  Host.sorts (@Host.stableSort User) /\
  Sorted (inOrder Host.asciiToLowerCase K_name_first desc)
         (sortUsers Host.asciiToLowerCase (@Host.stableSort User)
            [amy; bo; tam]
            {| key := K_name_first; direction := Some desc |}).
Proof.
  split.
  - apply HostFacts.stableSort_sorts.
  - apply (@sortUsers_sorted_by_code_units Host.asciiToLowerCase
             (@Host.stableSort User) [amy; bo; tam] K_name_first desc).
    apply HostFacts.stableSort_sorts.
Defined.

(** C7 (as stated) fails for code-point order: the first names U+20000 and
    U+F900 are sorted ascending as U+20000, U+F900, since the surrogate D840
    is below F900 as a code unit, while U+20000 is above U+F900 as a code
    point. *)
Lemma sortUsers_not_in_code_point_order :
  sortUsers Host.asciiToLowerCase (@Host.stableSort User) [uF900; u20000]
    {| key := K_name_first; direction := Some asc |} = [u20000; uF900]
  /\ keyLeCodePoint K_name_first
       (getSortValue Host.asciiToLowerCase u20000 K_name_first)
       (getSortValue Host.asciiToLowerCase uF900 K_name_first) = false.
Proof. split; reflexivity. Qed.

(** C4 (as amended): when the host sort is stable, so is [sortUsers]: for
    every key value, the records that have it appear in the result in the
    order they have in the input.  The comparator answers 0 on equal keys
    and leaves the order of ties to the host sort. *)
Theorem sortUsers_stable_on_stable_host
    (toLowerCase : jsstring -> jsstring)
    (Array_sort : (User -> User -> Z) -> list User -> list User)
    (users : list User) (sortConfig : SortConfig)
    (v : SortValue (key sortConfig)) :
  Host.stable Array_sort ->
  withKey toLowerCase (key sortConfig) v
          (sortUsers toLowerCase Array_sort users sortConfig)
  = withKey toLowerCase (key sortConfig) v users.
Proof.
  intros St. destruct sortConfig as [k [d|]]; unfold sortUsers; trivial.
  cbn [direction key] in *.
  set (cmp := compareUsers toLowerCase k d).
  set (out := Array_sort cmp users).
  assert (C : Host.consistent cmp) by apply compareUsers_consistent.
  unfold withKey.
  set (hasKey := fun u : User => keyEqb k v (getSortValue toLowerCase u k)).
  destruct (existsb hasKey (users ++ out)) eqn:E.
  - apply existsb_exists in E. destruct E as [a [_ Ha]].
    apply keyEqb_eq in Ha. subst v.
    assert (X : forall u, hasKey u = (cmp a u =? 0)).
    { intros u. unfold hasKey, cmp. now rewrite compareUsers_tie. }
    rewrite (filter_ext _ _ X out), (filter_ext _ _ X users).
    apply St, C.
  - rewrite existsb_app, orb_false_iff in E. destruct E as [E1 E2].
    now rewrite (filter_none _ _ E1), (filter_none _ _ E2).
Qed.

Lemma sortUsers_stable_on_stable_host_witness :
  Host.stable (@Host.stableSort User) /\
  withKey Host.asciiToLowerCase K_dob_age 25
          (sortUsers Host.asciiToLowerCase (@Host.stableSort User)
             [amy; bo; tam] {| key := K_dob_age; direction := Some asc |})
  = withKey Host.asciiToLowerCase K_dob_age 25 [amy; bo; tam].
Proof.
  split.
  - apply HostFacts.stableSort_stable.
  - apply (@sortUsers_stable_on_stable_host Host.asciiToLowerCase
             (@Host.stableSort User) [amy; bo; tam]
             {| key := K_dob_age; direction := Some asc |} 25).
    apply HostFacts.stableSort_stable.
Defined.

(** C4 (as stated) fails: [sortUsers] does not force the order of ties.  On
    a host sort that sorts but reverses ties, Bo and Tam, both aged 25, come
    out as Tam, Bo. *)
Lemma sortUsers_tie_order_left_to_host :
  Host.sorts (@Host.tieReversingSort User) /\
  withKey Host.asciiToLowerCase K_dob_age 25 [amy; bo; tam] = [bo; tam] /\
  withKey Host.asciiToLowerCase K_dob_age 25
          (sortUsers Host.asciiToLowerCase (@Host.tieReversingSort User)
             [amy; bo; tam] {| key := K_dob_age; direction := Some asc |})
  = [tam; bo].
Proof.
  split; [apply HostFacts.tieReversingSort_sorts | split; reflexivity].
Qed.

End SortFacts.

(* ================================================================== *)
(** * filterUsers *)
(* ================================================================== *)

Module FilterFacts.
Import JS Helpers Props.
Local Open Scope Z_scope.

Lemma Subseq_refl (A : Type) (l : list A) : Subseq l l.
Proof. induction l; constructor; trivial. Qed.

Lemma Subseq_filter (A : Type) (f : A -> bool) (l : list A) :
  Subseq (filter f l) l.
Proof.
  induction l as [|x l IH]; simpl; [constructor|].
  destruct (f x); now constructor.
Qed.

Lemma filter_twice (A : Type) (f : A -> bool) (l : list A) :
  filter f (filter f l) = filter f l.
Proof.
  induction l as [|x l IH]; simpl; trivial.
  destruct (f x) eqn:E; simpl; rewrite ?E, IH; trivial.
Qed.

(** With a query that is not blank, [filterUsers] is [filter] with the
    trimmed query. *)
Lemma filterUsers_filter (users : list User) (query : jsstring) :
  trim query <> [] ->
  filterUsers users query = filter (matchesQuery (trim query)) users.
Proof.
  unfold filterUsers. destruct (trim query); congruence.
Qed.

(** For the query ["male"], what decides whether a record whose gender is
    ["female"] is kept. *)
Lemma matchesQuery_male_female (u : User) :
  gender u = lit "female" ->
  matchesQuery (lit "male") u
  = includes (first (name u)) (lit "male")
    || includes (last (name u)) (lit "male")
    || includes (email u) (lit "male").
Proof.
  intros G. unfold matchesQuery. rewrite G.
  change (eqb (lit "male") (lit "male")) with true. cbv iota.
  change (eqb (lit "female") (lit "male")) with false.
  rewrite orb_false_r.
  change (lit " " ++ last (name u)) with (32%N :: last (name u)).
  rewrite (@JSFacts.includes_sep (first (name u)) (last (name u)) (lit "male") 32%N).
  - rewrite (@JSFacts.toString_no_letter (age (dob u)) (lit "male") 109%N);
      [|now left|reflexivity].
    rewrite orb_false_r.
    destruct (includes (first (name u)) (lit "male"));
      destruct (includes (last (name u)) (lit "male")); reflexivity.
  - cbv. intuition discriminate.
  - discriminate.
Qed.

(** C1 (as amended): [filterUsers users "male"] keeps a record whose gender
    is ["female"] exactly when its first name, its last name or its email
    contains ["male"]; the gender field never makes such a record match. *)
Theorem filterUsers_male_keeps_female (users : list User) (u : User) :
  gender u = lit "female" ->
  (In u (filterUsers users (lit "male")) <->
   In u users /\
   (includes (first (name u)) (lit "male")
    || includes (last (name u)) (lit "male")
    || includes (email u) (lit "male")) = true).
Proof.
  intros G.
  change (filterUsers users (lit "male"))
    with (filter (matchesQuery (lit "male")) users).
  now rewrite filter_In, (matchesQuery_male_female _ G).
Qed.

Lemma filterUsers_male_keeps_female_witness :
  gender tam = lit "female" /\
  (In tam (filterUsers [amy; bo; tam] (lit "male")) <->
   In tam [amy; bo; tam] /\
   (includes (first (name tam)) (lit "male")
    || includes (last (name tam)) (lit "male")
    || includes (email tam) (lit "male")) = true).
Proof.
  split; [reflexivity|].
  apply (@filterUsers_male_keeps_female [amy; bo; tam] tam). reflexivity.
Defined.

(** C1 (as stated) fails: Tam's gender is ["female"] and her email,
    tamale@x.com, contains ["male"], so the query ["male"] keeps her. *)
Lemma filterUsers_male_includes_a_female :
  gender tam = lit "female" /\
  filterUsers [amy; bo; tam] (lit "male") = [bo; tam].
Proof. split; reflexivity. Qed.

Lemma filterUsers_trim_nil (users : list User) (query : jsstring) :
  trim query = [] -> filterUsers users query = users.
Proof.
  intros H. unfold filterUsers. now rewrite H.
Qed.

(** A query of white space only is empty after trimming. *)
Lemma filterUsers_whitespace_query (users : list User) (query : jsstring) :
  forallb isWhiteSpace query = true -> filterUsers users query = users.
Proof.
  intros H. apply filterUsers_trim_nil. now apply JSFacts.trim_nil_iff.
Qed.

(** C9: a query that is empty after trimming, the empty query among them,
    gives back the list it was given. *)
Theorem filterUsers_blank_query (users : list User) (query : jsstring) :
  trim query = [] -> filterUsers users query = users.
Proof.
  apply filterUsers_trim_nil.
Qed.

Lemma filterUsers_blank_query_witness :
  trim [] = [] /\ filterUsers [amy; bo; tam] [] = [amy; bo; tam].
Proof.
  split; [reflexivity|].
  apply (@filterUsers_blank_query [amy; bo; tam] []). reflexivity.
Defined.

(** C10: the result of [filterUsers] is a subsequence of the input, and
    filtering the result again with the same query changes nothing. *)
Theorem filterUsers_subseq_idempotent (users : list User) (query : jsstring) :
  Subseq (filterUsers users query) users /\
  filterUsers (filterUsers users query) query = filterUsers users query.
Proof.
  unfold filterUsers. destruct (trim query) as [|c r].
  - split; [apply Subseq_refl | reflexivity].
  - split; [apply Subseq_filter | apply filter_twice].
Qed.

End FilterFacts.

(* ================================================================== *)
(** * paginateData *)
(* ================================================================== *)

Module PageFacts.
Import Helpers Props.
Local Open Scope Z_scope.

Lemma firstn_plus (T : Type) (a b : nat) (l : list T) :
  firstn (a + b) l = firstn a l ++ firstn b (skipn a l).
Proof.
  revert l; induction a as [|a IH]; intros [|x l]; simpl; trivial.
  - now rewrite firstn_nil.
  - now rewrite IH.
Qed.

(** From page 1 on and with a page size that is not negative, the two
    indices given to [slice] are not negative and the page is the run of
    [pageSize] elements after the first [(page - 1) * pageSize]. *)
Lemma paginateData_firstn_skipn (T : Type) (data : list T) (page pageSize : Z) :
  1 <= page -> 0 <= pageSize ->
  paginateData data page pageSize
  = firstn (Z.to_nat pageSize) (skipn (Z.to_nat ((page - 1) * pageSize)) data).
Proof.
  intros Hp Hs. unfold paginateData, pageStart, slice.
  set (start := (page - 1) * pageSize).
  set (len := Z.of_nat (List.length data)).
  assert (H0 : 0 <= start) by (unfold start; nia).
  destruct (Z.ltb_spec start 0) as [?|_]; [lia|].
  destruct (Z.ltb_spec (start + pageSize) 0) as [?|_]; [lia|].
  destruct (Z_le_gt_dec len start) as [Hge|Hlt].
  - rewrite (Z.min_r start len) by lia.
    rewrite !skipn_all2 by (unfold len in *; lia).
    now rewrite !firstn_nil.
  - rewrite (Z.min_l start len) by lia.
    set (rest := skipn (Z.to_nat start) data).
    assert (Hr : List.length rest = Z.to_nat (len - start)).
    { unfold rest. rewrite length_skipn. unfold len. lia. }
    destruct (Z_le_gt_dec (start + pageSize) len) as [Hin|Hout].
    + rewrite Z.min_l by lia. f_equal. lia.
    + rewrite Z.min_r by lia.
      rewrite !firstn_all2; trivial; lia.
Qed.

(** C5 (as amended): for every page from 1 on and every page size that is
    not negative, the start of the slice is not negative and
    [paginateData] returns the elements at the positions
    [(page-1)*pageSize] up to, not including, [page*pageSize], as many of
    them as the list has (none when the list ends before the start). *)
Theorem paginateData_page (T : Type) (data : list T) (page pageSize : Z) :
  1 <= page -> 0 <= pageSize ->
  pageStart page pageSize >= 0 /\
  paginateData data page pageSize
  = firstn (Z.to_nat pageSize) (skipn (Z.to_nat (pageStart page pageSize)) data).
Proof.
  intros Hp Hs. split.
  - unfold pageStart. nia.
  - now apply paginateData_firstn_skipn.
Qed.

Lemma paginateData_page_witness :
  1 <= 3 /\ 0 <= 5 /\
  pageStart 3 5 >= 0 /\
  paginateData twelve 3 5
  = firstn (Z.to_nat 5) (skipn (Z.to_nat (pageStart 3 5)) twelve).
Proof.
  split; [lia|]. split; [lia|].
  apply (@paginateData_page Z twelve 3 5); lia.
Defined.

(** C5 (as stated) fails: there is no clamp.  Page -1 of size 5 has the
    negative start -10 and, on twelve elements, is the third to the seventh
    element, neither empty nor page 1; and with the negative page size -5,
    page 1 is the first seven elements. *)
Lemma paginateData_not_clamped :
  pageStart (-1) 5 = -10 /\
  paginateData twelve (-1) 5 = [3; 4; 5; 6; 7] /\
  paginateData twelve 1 (-5) = [1; 2; 3; 4; 5; 6; 7].
Proof. repeat split. Qed.

(** The first [n] pages together are the first [n * pageSize] elements. *)
Lemma concat_pages (T : Type) (data : list T) (pageSize : Z) (n : nat) :
  0 <= pageSize ->
  List.concat (map (fun p => paginateData data (Z.of_nat p) pageSize) (seq 1 n))
  = firstn (n * Z.to_nat pageSize) data.
Proof.
  intros Hs. induction n as [|n IH]; trivial.
  rewrite seq_S, map_app, concat_app, IH. cbn [map List.concat].
  rewrite app_nil_r, paginateData_firstn_skipn by lia.
  replace (Z.to_nat ((Z.of_nat (1 + n) - 1) * pageSize))
    with (n * Z.to_nat pageSize)%nat by nia.
  rewrite <- firstn_plus. f_equal. lia.
Qed.

Lemma totalPages_covers (len pageSize : Z) :
  0 < pageSize -> len <= DataTable.totalPages len pageSize * pageSize.
Proof.
  intros Hs. unfold DataTable.totalPages.
  pose proof (Z.div_mod (len + pageSize - 1) pageSize) as D.
  pose proof (Z.mod_pos_bound (len + pageSize - 1) pageSize Hs) as B.
  nia.
Qed.

(** C8: for a positive page size, the pages 1 to [totalPages], one after
    the other, are the list itself. *)
Theorem allPages_concat (T : Type) (data : list T) (pageSize : Z) :
  0 < pageSize -> List.concat (allPages data pageSize) = data.
Proof.
  intros Hs. unfold allPages. rewrite concat_pages by lia.
  apply firstn_all2.
  pose proof (totalPages_covers (Z.of_nat (List.length data)) Hs) as C.
  nia.
Qed.

Lemma allPages_concat_witness :
  0 < 5 /\ List.concat (allPages twelve 5) = twelve.
Proof.
  split; [lia|]. apply (@allPages_concat Z twelve 5). lia.
Defined.

End PageFacts.

(* ================================================================== *)
(** * DataTable: sorting control, search box, fetch *)
(* ================================================================== *)

Module TableFacts.
Import JS DataTable.
Local Open Scope Z_scope.

Lemma SortKey_eqb_eq (a b : Helpers.SortKey) :
  Helpers.SortKey_eqb a b = true <-> a = b.
Proof. destruct a, b; simpl; split; congruence. Qed.

(** C6: [handleSort k] makes [k] the sort key; when [k] was the sort key
    already the direction flips between ascending and descending,
    otherwise it becomes ascending; the page becomes 1 in every case. *)
Theorem handleSort_spec (k : Helpers.SortKey) (s : State) :
  key (sortConfig (handleSort k s)) = k /\
  (key (sortConfig s) = k ->
     direction (sortConfig (handleSort k s))
     = match direction (sortConfig s) with
       | Helpers.asc => Helpers.desc
       | Helpers.desc => Helpers.asc
       end) /\
  (key (sortConfig s) <> k ->
     direction (sortConfig (handleSort k s)) = Helpers.asc) /\
  currentPage (handleSort k s) = 1.
Proof.
  unfold handleSort, setCurrentPage, setSortConfig. cbn.
  repeat split.
  - intros E. apply SortKey_eqb_eq in E. rewrite E.
    now destruct (direction (sortConfig s)).
  - intros N. destruct (Helpers.SortKey_eqb (key (sortConfig s)) k) eqn:E.
    + apply SortKey_eqb_eq in E. contradiction.
    + reflexivity.
Qed.

(** *** The search box and the debounce timer *)

Lemma elapse_currentPage (ms : nat) (s : State) :
  currentPage (elapse ms s) = currentPage s.
Proof.
  unfold elapse. destruct (timer s) as [t|]; trivial.
  now destruct (remaining t <=? ms)%nat.
Qed.

Lemma onSearchChange_timer (value : jsstring) (s : State) :
  value <> searchQuery s ->
  timer (onSearchChange value s)
  = Some {| captured := value; remaining := 300 |}.
Proof.
  intros N. unfold onSearchChange, debounceEffect. cbn.
  destruct (eqb (searchQuery s) value) eqn:E; trivial.
  apply JSFacts.eqb_eq in E. congruence.
Qed.

Lemma onSearchChange_fields (value : jsstring) (s : State) :
  searchQuery (onSearchChange value s) = value /\
  currentPage (onSearchChange value s) = 1 /\
  debouncedQuery (onSearchChange value s) = debouncedQuery s /\
  sortConfig (onSearchChange value s) = sortConfig s.
Proof.
  unfold onSearchChange, debounceEffect. cbn.
  destruct (eqb (searchQuery s) value); cbn; auto.
Qed.

(** C3 (as amended): the search input's handler sets the query and itself
    resets the page to 1 at once, leaving the debounced query and the sort
    as they are; when 300 ms then pass with no other event, the new query
    is copied into the debounced query, not earlier. *)
Theorem onSearchChange_then_debounce (value : jsstring) (s : State) :
  (searchQuery (onSearchChange value s) = value /\
   currentPage (onSearchChange value s) = 1 /\
   debouncedQuery (onSearchChange value s) = debouncedQuery s /\
   sortConfig (onSearchChange value s) = sortConfig s) /\
  (value <> searchQuery s ->
   forall ms : nat,
     debouncedQuery (elapse ms (onSearchChange value s))
     = if (300 <=? ms)%nat then value else debouncedQuery s).
Proof.
  split; [apply onSearchChange_fields|].
  intros N ms. unfold elapse. rewrite (@onSearchChange_timer value s N).
  cbn [remaining captured].
  destruct (300 <=? ms)%nat.
  - reflexivity.
  - unfold setTimer. cbn [debouncedQuery]. apply onSearchChange_fields.
Qed.

(** C3 (as stated) fails on both counts.  Typing "a" on page 2 resets the
    page to 1 in the handler itself; and when the user moves to page 2
    again before the 300 ms are over, the timer commits "a" and the page
    stays 2. *)
Lemma search_resets_page_at_once_not_on_commit :
  currentPage Props.onPage2 = 2 /\
  currentPage (onSearchChange (lit "a") Props.onPage2) = 1 /\
  debouncedQuery
    (elapse 300
       (clickNext Host.asciiToLowerCase (@Host.stableSort Helpers.User)
          (elapse 100 (onSearchChange (lit "a") Props.onPage2)))) = lit "a" /\
  currentPage
    (elapse 300
       (clickNext Host.asciiToLowerCase (@Host.stableSort Helpers.User)
          (elapse 100 (onSearchChange (lit "a") Props.onPage2)))) = 2.
Proof. repeat split. Qed.

(** *** The fetch effect *)

(** C2: the code does not keep the promise.  When the request is aborted,
    the catch block returns without setting the error, but the finally
    block still runs [setLoading(false)]: starting from the mounted state,
    where [loading] is true, the aborted attempt leaves [loading] false.
    The same holds from every state, and when the abort arrives while the
    body is read. *)
Theorem aborted_fetch_clears_loading :
  fetchState mount = ([], true, None) /\
  fetchState (afterFetch (FetchRejected AbortError) mount) = ([], false, None) /\
  (forall (s : State) (message : jsstring),
     fetchState
       (afterFetch (FetchRejected (ErrorObject (lit "AbortError") message)) s)
     = (users s, false, error s)) /\
  (forall (s : State) (message : jsstring),
     fetchState
       (afterFetch
          (Responded true
             (JsonRejected (ErrorObject (lit "AbortError") message))) s)
     = (users s, false, error s)).
Proof. repeat split. Qed.

(** The other ways the request settles, for comparison. *)
Lemma fetch_succeeds (s : State) (results : list Helpers.User) :
  fetchState (afterFetch (Responded true (JsonResolved results)) s)
  = (results, false, error s).
Proof. reflexivity. Qed.

Lemma fetch_bad_status (s : State) (body : JsonOutcome) :
  fetchState (afterFetch (Responded false body) s)
  = (users s, false, Some (lit "Failed to fetch data")).
Proof. reflexivity. Qed.

End TableFacts.

(* ================================================================== *)
(** * More about filterUsers *)
(* ================================================================== *)

Module FilterMore.
Import JS Helpers Props.
Local Open Scope Z_scope.

(** *** trim is idempotent *)

Lemma trimStart_split (s : jsstring) :
  exists w, s = w ++ trimStart s.
Proof.
  induction s as [|c s [w IH]]; simpl.
  - now exists [].
  - destruct (isWhiteSpace c).
    + exists (c :: w). simpl. now f_equal.
    + now exists [].
Qed.

Lemma trimStart_fixed (s : jsstring) :
  match s with [] => True | c :: _ => isWhiteSpace c = false end ->
  trimStart s = s.
Proof.
  destruct s as [|c s]; simpl; trivial. now intros ->.
Qed.

Lemma trimStart_twice (s : jsstring) : trimStart (trimStart s) = trimStart s.
Proof.
  apply trimStart_fixed. destruct (trimStart s) as [|c r] eqn:E; trivial.
  now apply JSFacts.trimStart_head in E.
Qed.

Lemma trim_twice (s : jsstring) : trim (trim s) = trim s.
Proof.
  unfold trim, trimEnd.
  set (u := trimStart s). set (v := trimStart (rev u)).
  assert (Hv : trimStart v = v) by apply trimStart_twice.
  assert (Hu : trimStart (rev v) = rev v).
  { apply trimStart_fixed.
    destruct (trimStart_split (rev u)) as [w Hw]. fold v in Hw.
    apply (f_equal (@rev N)) in Hw. rewrite rev_involutive, rev_app_distr in Hw.
    destruct (rev v) as [|c r] eqn:E; trivial.
    assert (Tu : trimStart u = u) by apply trimStart_twice.
    rewrite Hw in Tu. simpl in Tu.
    destruct (isWhiteSpace c) eqn:W; trivial.
    apply JSFacts.trimStart_head in Tu. congruence. }
  now rewrite Hu, rev_involutive, Hv.
Qed.

(** X1: white space around the query does not count: the query and the
    trimmed query give the same result. *)
Theorem filterUsers_query_trimmed (users : list User) (query : jsstring) :
  filterUsers users (trim query) = filterUsers users query.
Proof.
  unfold filterUsers. now rewrite trim_twice.
Qed.

(** X2: filtering a list made of two parts is filtering each part. *)
Theorem filterUsers_app (users more : list User) (query : jsstring) :
  filterUsers (users ++ more) query
  = filterUsers users query ++ filterUsers more query.
Proof.
  unfold filterUsers. destruct (trim query); trivial. apply filter_app.
Qed.

(** X3: the query ["male"] keeps exactly the records whose gender is exactly
    ["male"] and those whose first name, last name or email contains
    ["male"]. *)
Theorem filterUsers_male_exactly (users : list User) (u : User) :
  In u (filterUsers users (lit "male")) <->
  In u users /\
  (gender u = lit "male" \/
   includes (first (name u)) (lit "male") = true \/
   includes (last (name u)) (lit "male") = true \/
   includes (email u) (lit "male") = true).
Proof.
  change (filterUsers users (lit "male"))
    with (filter (matchesQuery (lit "male")) users).
  rewrite filter_In. apply and_iff_compat_l.
  unfold matchesQuery.
  change (eqb (lit "male") (lit "male")) with true. cbv iota.
  change (lit " " ++ last (name u)) with (32%N :: last (name u)).
  rewrite (@JSFacts.includes_sep (first (name u)) (last (name u)) (lit "male") 32%N);
    [|cbv; intuition discriminate|discriminate].
  rewrite (@JSFacts.toString_no_letter (age (dob u)) (lit "male") 109%N);
    [|now left|reflexivity].
  rewrite !orb_true_iff, JSFacts.eqb_eq. intuition discriminate.
Qed.

(** X4: for any other query, a record whose gender contains the trimmed
    query is kept; so ["female"] keeps every female record, and ["ma"]
    keeps male and female records alike. *)
Theorem filterUsers_gender_substring (users : list User) (query : jsstring) (u : User) :
  trim query <> lit "male" ->
  includes (gender u) (trim query) = true ->
  In u users ->
  In u (filterUsers users query).
Proof.
  intros Hm Hg Hu. unfold filterUsers.
  destruct (trim query) as [|c r] eqn:E; trivial.
  apply filter_In. split; trivial.
  unfold matchesQuery.
  apply JSFacts.eqb_neq in Hm. rewrite Hm, Hg.
  now rewrite !orb_true_r.
Qed.

Lemma filterUsers_gender_substring_witness :
  trim (lit " ma ") <> lit "male" /\
  includes (gender amy) (trim (lit " ma ")) = true /\
  In amy [amy; bo; tam] /\
  In amy (filterUsers [amy; bo; tam] (lit " ma ")).
Proof.
  assert (H1 : trim (lit " ma ") <> lit "male") by (cbv; discriminate).
  assert (H2 : includes (gender amy) (trim (lit " ma ")) = true) by reflexivity.
  assert (H3 : In amy [amy; bo; tam]) by (now left).
  split; [exact H1|]. split; [exact H2|]. split; [exact H3|].
  exact (@filterUsers_gender_substring [amy; bo; tam] (lit " ma ") amy H1 H2 H3).
Defined.

(** X5: a query without a space never matches through the full name alone:
    the record is kept exactly when the query occurs in the first name, the
    last name, the gender (for ["male"]: is the gender), the email or the
    age. *)
Theorem matchesQuery_without_space (searchStr : jsstring) (u : User) :
  searchStr <> [] -> ~ In 32%N searchStr ->
  matchesQuery searchStr u
  = includes (first (name u)) searchStr
    || includes (last (name u)) searchStr
    || (if eqb searchStr (lit "male") then eqb (gender u) (lit "male")
        else includes (gender u) searchStr)
    || includes (email u) searchStr
    || includes (toString (age (dob u))) searchStr.
Proof.
  intros Hn Hs. unfold matchesQuery.
  change (lit " " ++ last (name u)) with (32%N :: last (name u)).
  rewrite (@JSFacts.includes_sep (first (name u)) (last (name u)) searchStr 32%N Hs Hn).
  destruct (includes (first (name u)) searchStr);
    destruct (includes (last (name u)) searchStr); reflexivity.
Qed.

Lemma matchesQuery_without_space_witness :
  lit "Lee" <> [] /\ ~ In 32%N (lit "Lee") /\
  matchesQuery (lit "Lee") amy
  = includes (first (name amy)) (lit "Lee")
    || includes (last (name amy)) (lit "Lee")
    || (if eqb (lit "Lee") (lit "male") then eqb (gender amy) (lit "male")
        else includes (gender amy) (lit "Lee"))
    || includes (email amy) (lit "Lee")
    || includes (toString (age (dob amy))) (lit "Lee").
Proof.
  assert (H1 : lit "Lee" <> []) by discriminate.
  assert (H2 : ~ In 32%N (lit "Lee")) by (cbv; intuition discriminate).
  split; [exact H1|]. split; [exact H2|].
  exact (@matchesQuery_without_space (lit "Lee") amy H1 H2).
Defined.

(** X6: a query made of white space only (spaces, tabs, no-break spaces,
    line ends) gives back the list it was given. *)
Theorem filterUsers_only_white_space (users : list User) (query : jsstring) :
  forallb isWhiteSpace query = true -> filterUsers users query = users.
Proof.
  intros H. unfold filterUsers.
  now rewrite (proj2 (JSFacts.trim_nil_iff query) H).
Qed.

Lemma filterUsers_only_white_space_witness :
  forallb isWhiteSpace [32; 9; 160; 10]%N = true /\
  filterUsers [amy; bo; tam] [32; 9; 160; 10]%N = [amy; bo; tam].
Proof.
  split; [reflexivity|].
  apply (@filterUsers_only_white_space [amy; bo; tam] [32; 9; 160; 10]%N).
  reflexivity.
Defined.

End FilterMore.

(* ================================================================== *)
(** * More about sortUsers *)
(* ================================================================== *)

Module SortMore.
Import JS Helpers Props Host.
Local Open Scope Z_scope.

(** ** A sorted arrangement that keeps ties in place is unique *)

Section Unique.
Variable A : Type.
Variable cmp : A -> A -> Z.
Hypothesis C : consistent cmp.

Let le (a b : A) : Prop := cmp a b <= 0.
Let tie (a x : A) : bool := cmp a x =? 0.

Lemma cmp_flip_neg (a b : A) : cmp a b < 0 -> cmp b a > 0.
Proof.
  intros H.
  destruct (Z.lt_trichotomy (cmp b a) 0) as [K|[K|K]]; [| |lia].
  - pose proof (cmp_trans_lt C a b a H K) as T.
    rewrite (cmp_refl C) in T. lia.
  - apply (cmp_sym C) in K. lia.
Qed.

Lemma le_antisym_tie (a b : A) : le a b -> le b a -> cmp a b = 0.
Proof.
  unfold le. intros H1 H2.
  destruct (Z.eq_dec (cmp a b) 0) as [E|N]; trivial.
  assert (L : cmp a b < 0) by lia. apply cmp_flip_neg in L. lia.
Qed.

Lemma le_trans (a b c : A) : le a b -> le b c -> le a c.
Proof.
  unfold le. intros H1 H2.
  destruct (Z.lt_trichotomy (cmp a c) 0) as [K|[K|K]]; try lia.
  exfalso. apply Z.lt_gt in K.
  pose proof (HostFacts.cmp_flip C _ _ K) as Kca.
  destruct (Z.eq_dec (cmp a b) 0) as [E1|N1];
    destruct (Z.eq_dec (cmp b c) 0) as [E2|N2].
  - rewrite (cmp_trans_eq C _ _ _ E1 E2) in K. lia.
  - assert (L : cmp b c < 0) by lia.
    pose proof (cmp_trans_lt C _ _ _ L Kca) as T.
    rewrite (cmp_sym C _ _ E1) in T. lia.
  - assert (L : cmp a b < 0) by lia.
    pose proof (cmp_trans_lt C _ _ _ Kca L) as T.
    apply (cmp_sym C) in E2. lia.
  - assert (L1 : cmp a b < 0) by lia. assert (L2 : cmp b c < 0) by lia.
    pose proof (cmp_trans_lt C _ _ _ L1 L2). lia.
Qed.

Lemma Sorted_head_le (x : A) (l : list A) (y : A) :
  Sorted le (x :: l) -> In y (x :: l) -> le x y.
Proof.
  intros S H. apply Sorted_StronglySorted in S.
  - inversion_clear S as [|? ? _ F]. destruct H as [<-|H].
    + unfold le. rewrite (cmp_refl C). lia.
    + rewrite Forall_forall in F. now apply F.
  - intros a b c. apply le_trans.
Qed.

Lemma Sorted_filter (f : A -> bool) (l : list A) :
  Sorted le l -> Sorted le (filter f l).
Proof.
  intros S. apply Sorted_StronglySorted in S; [|intros a b c; apply le_trans].
  apply StronglySorted_Sorted.
  induction S as [|x l S IH F]; simpl; [constructor|].
  destruct (f x); trivial. constructor; trivial.
  rewrite Forall_forall in *. intros y Hy. apply filter_In in Hy. now apply F.
Qed.

Theorem sorted_ties_unique (l1 l2 : list A) :
  Sorted le l1 -> Sorted le l2 -> Permutation l1 l2 ->
  (forall a, filter (tie a) l1 = filter (tie a) l2) ->
  l1 = l2.
Proof.
  revert l2. induction l1 as [|x l1 IH]; intros l2 S1 S2 P T.
  - now apply Permutation_nil in P.
  - destruct l2 as [|y l2].
    + apply Permutation_sym, Permutation_nil in P. discriminate.
    + assert (Hxy : cmp x y = 0).
      { apply le_antisym_tie.
        - apply (Sorted_head_le S1). apply (Permutation_in _ (Permutation_sym P)).
          now left.
        - apply (Sorted_head_le S2). apply (Permutation_in _ P). now left. }
      assert (x = y).
      { pose proof (T x) as Tx. unfold tie in Tx. cbn [filter] in Tx.
        rewrite (cmp_refl C), Hxy in Tx. cbn in Tx. congruence. }
      subst y. f_equal. apply IH.
      * now inversion S1.
      * now inversion S2.
      * now apply Permutation_cons_inv in P.
      * intros a. pose proof (T a) as Ta. cbn [filter] in Ta.
        destruct (tie a x); congruence.
Qed.

Lemma filter_all_false (f : A -> bool) (l : list A) :
  (forall z, In z l -> f z = false) -> filter f l = [].
Proof.
  induction l as [|y l IH]; intros H; simpl; trivial.
  rewrite (H y) by now left. apply IH. intros z Hz. apply H. now right.
Qed.

(** Into a sorted list, [insertAfter] puts the new element behind every
    element it ties with. *)
Lemma insertAfter_filter (a x : A) (l : list A) :
  Sorted le l ->
  filter (tie a) (insertAfter cmp x l) = filter (tie a) l ++ filter (tie a) [x].
Proof.
  induction l as [|y l IH]; intros S; [reflexivity|].
  cbn [insertAfter]. destruct (Z.ltb_spec (cmp x y) 0) as [Hlt|Hge].
  - cbn [filter]. destruct (tie a x) eqn:Tx; [|now rewrite app_nil_r].
    assert (F : filter (tie a) (y :: l) = []).
    { apply filter_all_false. intros z Hz.
      destruct (tie a z) eqn:Tz; trivial. exfalso.
      unfold tie in Tx, Tz. apply Z.eqb_eq in Tx, Tz.
      assert (Ezx : cmp z x = 0).
      { apply (cmp_trans_eq C z a x); trivial. now apply (cmp_sym C). }
      assert (Lyx : le y x).
      { apply (@le_trans y z x).
        - now apply (Sorted_head_le S).
        - unfold le. lia. }
      apply cmp_flip_neg in Hlt. unfold le in Lyx. lia. }
    cbn [filter] in F. now rewrite F.
  - cbn [filter]. rewrite IH by now inversion S.
    now destruct (tie a y).
Qed.

Lemma insertionSort_from (acc l : list A) :
  Sorted le acc ->
  Permutation (acc ++ l) (fold_left (fun r x => insertAfter cmp x r) l acc) /\
  Sorted le (fold_left (fun r x => insertAfter cmp x r) l acc) /\
  (forall a,
     filter (tie a) (fold_left (fun r x => insertAfter cmp x r) l acc)
     = filter (tie a) acc ++ filter (tie a) l).
Proof.
  revert acc. induction l as [|x l IH]; intros acc S; cbn [fold_left].
  - rewrite app_nil_r. repeat split; trivial. intros a. now rewrite app_nil_r.
  - pose proof (HostFacts.insertAfter_sorted C x S) as S'.
    destruct (IH _ S') as [P [O T]]. repeat split; trivial.
    + rewrite <- P. rewrite <- (HostFacts.insertAfter_perm cmp x acc).
      symmetry. apply Permutation_middle.
    + intros a. rewrite T, (insertAfter_filter a x S), <- app_assoc.
      f_equal. cbn [filter]. now destruct (tie a x).
Qed.

End Unique.

Lemma insertionSort_sorts (A : Type) : sorts (@insertionSort A).
Proof.
  intros cmp l C. unfold insertionSort.
  destruct (@insertionSort_from A cmp C [] l (Sorted_nil _)) as [P [O _]].
  split; trivial.
Qed.

Lemma insertionSort_stable (A : Type) : stable (@insertionSort A).
Proof.
  intros cmp l C a. unfold insertionSort.
  destruct (@insertionSort_from A cmp C [] l (Sorted_nil _)) as [_ [_ T]].
  apply T.
Qed.

(** Two host sorts that sort and are stable return the same list. *)
Lemma stable_sorts_agree (A : Type)
    (srt1 srt2 : (A -> A -> Z) -> list A -> list A)
    (cmp : A -> A -> Z) (l : list A) :
  sorts srt1 -> stable srt1 -> sorts srt2 -> stable srt2 -> consistent cmp ->
  srt1 cmp l = srt2 cmp l.
Proof.
  intros S1 T1 S2 T2 C.
  destruct (S1 cmp l C) as [P1 O1]. destruct (S2 cmp l C) as [P2 O2].
  apply (sorted_ties_unique C); trivial.
  - now rewrite <- P1.
  - intros a. now rewrite (T1 cmp l C a), (T2 cmp l C a).
Qed.

(** Such a sort leaves a sorted list as it is. *)
Lemma stable_sort_sorted (A : Type) (srt : (A -> A -> Z) -> list A -> list A)
    (cmp : A -> A -> Z) (l : list A) :
  sorts srt -> stable srt -> consistent cmp ->
  Sorted (fun a b => cmp a b <= 0) l -> srt cmp l = l.
Proof.
  intros S T C O. destruct (S cmp l C) as [P O'].
  apply (sorted_ties_unique C); trivial.
  - now apply Permutation_sym.
  - intros a. apply (T cmp l C a).
Qed.

(** Such a sort commutes with [filter]. *)
Lemma stable_sort_filter (A : Type) (srt : (A -> A -> Z) -> list A -> list A)
    (cmp : A -> A -> Z) (f : A -> bool) (l : list A) :
  sorts srt -> stable srt -> consistent cmp ->
  srt cmp (filter f l) = filter f (srt cmp l).
Proof.
  intros S T C.
  destruct (S cmp l C) as [P O]. destruct (S cmp (filter f l) C) as [Pf Of].
  apply (sorted_ties_unique C); trivial.
  - now apply Sorted_filter.
  - rewrite <- Pf. clear - P. induction P; simpl.
    + constructor.
    + destruct (f x); auto.
    + destruct (f x), (f y); auto. apply perm_swap.
    + etransitivity; eassumption.
  - intros a. rewrite (T cmp (filter f l) C a).
    assert (Sw : forall (g h : A -> bool) (m : list A),
               filter g (filter h m) = filter h (filter g m)).
    { intros g h m. induction m as [|z m IHm]; simpl; trivial.
      destruct (g z) eqn:Eg, (h z) eqn:Eh; simpl; rewrite ?Eg, ?Eh, IHm; trivial. }
    rewrite (Sw _ f (srt cmp l)), (T cmp l C a). apply Sw.
Qed.


(** ** The comparator *)

Section Comparator.
Variable toLowerCase : jsstring -> jsstring.

Lemma compareUsers_cases (k : SortKey) (d : AscDesc) (a b : User) :
  let x := getSortValue toLowerCase a k in
  let y := getSortValue toLowerCase b k in
  (lessThan k x y = true /\ lessThan k y x = false /\
   compareUsers toLowerCase k d a b = match d with asc => -1 | desc => 1 end) \/
  (lessThan k x y = false /\ lessThan k y x = true /\
   compareUsers toLowerCase k d a b = match d with asc => 1 | desc => -1 end) \/
  (x = y /\ compareUsers toLowerCase k d a b = 0).
Proof.
  intros x y. unfold compareUsers, greaterThan. fold x y.
  destruct (lessThan k x y) eqn:E1.
  - left. split; trivial. split; trivial. now apply SortFacts.lessThan_asym.
  - destruct (lessThan k y x) eqn:E2.
    + right; left. auto.
    + right; right. split; trivial. now apply SortFacts.lessThan_total.
Qed.

(** X7: the comparator of [sortUsers] answers -1, 0 or 1, and 0 exactly
    when the two records have the same derived key. *)
Theorem compareUsers_values (k : SortKey) (d : AscDesc) (a b : User) :
  (compareUsers toLowerCase k d a b = -1 \/
   compareUsers toLowerCase k d a b = 0 \/
   compareUsers toLowerCase k d a b = 1) /\
  (compareUsers toLowerCase k d a b = 0 <->
   getSortValue toLowerCase a k = getSortValue toLowerCase b k).
Proof.
  split.
  - destruct (compareUsers_cases k d a b) as [[_ [_ H]]|[[_ [_ H]]|[_ H]]];
      rewrite H; destruct d; auto.
  - apply SortFacts.compareUsers_zero.
Qed.

(** X8: descending is ascending negated, and swapping the two records
    negates the result. *)
Theorem compareUsers_negation (k : SortKey) (d : AscDesc) (a b : User) :
  compareUsers toLowerCase k desc a b = - compareUsers toLowerCase k asc a b /\
  compareUsers toLowerCase k d b a = - compareUsers toLowerCase k d a b.
Proof.
  split.
  - unfold compareUsers, greaterThan.
    destruct (lessThan k (getSortValue toLowerCase a k) (getSortValue toLowerCase b k));
    destruct (lessThan k (getSortValue toLowerCase b k) (getSortValue toLowerCase a k));
      reflexivity.
  - unfold compareUsers, greaterThan.
    destruct (lessThan k (getSortValue toLowerCase a k) (getSortValue toLowerCase b k)) eqn:E1;
    destruct (lessThan k (getSortValue toLowerCase b k) (getSortValue toLowerCase a k)) eqn:E2;
      destruct d; trivial;
      rewrite (SortFacts.lessThan_asym _ _ _ E1) in E2; discriminate.
Qed.

(** X9: for every key and direction the comparator is a consistent
    comparator, the condition under which the result of
    [Array.prototype.sort] is defined by the language. *)
Theorem compareUsers_meets_sort_contract (k : SortKey) (d : AscDesc) :
  consistent (compareUsers toLowerCase k d).
Proof.
  apply SortFacts.compareUsers_consistent.
Qed.

(** Two directions of one key tie the same records. *)
Lemma compareUsers_tie_direction (k : SortKey) (d1 d2 : AscDesc) (a b : User) :
  (compareUsers toLowerCase k d1 a b =? 0)
  = (compareUsers toLowerCase k d2 a b =? 0).
Proof.
  now rewrite !SortFacts.compareUsers_tie.
Qed.

End Comparator.

(** ** sortUsers on a conforming host *)

Section Conforming.
Variable toLowerCase : jsstring -> jsstring.
Variable Array_sort : (User -> User -> Z) -> list User -> list User.
Hypothesis Hsorts : sorts Array_sort.

(** X10: [sortUsers] rearranges: the result has the records of the input,
    each as often as the input has it. *)
Theorem sortUsers_permutation (users : list User) (sortConfig : SortConfig) :
  Permutation users (sortUsers toLowerCase Array_sort users sortConfig).
Proof.
  unfold sortUsers. destruct (direction sortConfig) as [d|]; trivial.
  apply Hsorts, SortFacts.compareUsers_consistent.
Qed.

Hypothesis Hstable : stable Array_sort.

(** X11: on a stable host the result does not depend on the engine: any
    other host sort that sorts and is stable gives the same list. *)
Theorem sortUsers_same_on_every_stable_host
    (Other_sort : (User -> User -> Z) -> list User -> list User)
    (users : list User) (sortConfig : SortConfig) :
  sorts Other_sort -> stable Other_sort ->
  sortUsers toLowerCase Other_sort users sortConfig
  = sortUsers toLowerCase Array_sort users sortConfig.
Proof.
  intros S T. unfold sortUsers. destruct (direction sortConfig) as [d|]; trivial.
  apply stable_sorts_agree; trivial. apply SortFacts.compareUsers_consistent.
Qed.

(** X12: sorting a sorted result again by the same key, in the same or the
    other direction, is sorting the input once in the last direction: in
    particular [sortUsers] is idempotent. *)
Theorem sortUsers_resort (users : list User) (k : SortKey) (d1 d2 : AscDesc) :
  sortUsers toLowerCase Array_sort
    (sortUsers toLowerCase Array_sort users {| key := k; direction := Some d1 |})
    {| key := k; direction := Some d2 |}
  = sortUsers toLowerCase Array_sort users {| key := k; direction := Some d2 |}.
Proof.
  unfold sortUsers. cbn [direction key].
  set (c1 := compareUsers toLowerCase k d1).
  set (c2 := compareUsers toLowerCase k d2).
  assert (C1 : consistent c1) by apply SortFacts.compareUsers_consistent.
  assert (C2 : consistent c2) by apply SortFacts.compareUsers_consistent.
  destruct (@Hsorts c1 users C1) as [P1 _].
  destruct (@Hsorts c2 users C2) as [P2 O2].
  destruct (@Hsorts c2 (Array_sort c1 users) C2) as [P3 O3].
  apply (sorted_ties_unique C2); trivial.
  - now rewrite <- P3, <- P1.
  - intros a. rewrite (@Hstable c2 (Array_sort c1 users) C2 a), (@Hstable c2 users C2 a).
    assert (X : forall u, (c2 a u =? 0) = (c1 a u =? 0)).
    { intros u. apply compareUsers_tie_direction. }
    rewrite (filter_ext _ _ X (Array_sort c1 users)), (filter_ext _ _ X users).
    apply (@Hstable c1 users C1 a).
Qed.

(** X13: filtering and sorting commute: sorting the matches is filtering
    the sorted list. *)
Theorem sortUsers_filterUsers_commute
    (users : list User) (query : jsstring) (sortConfig : SortConfig) :
  sortUsers toLowerCase Array_sort (filterUsers users query) sortConfig
  = filterUsers (sortUsers toLowerCase Array_sort users sortConfig) query.
Proof.
  unfold sortUsers, filterUsers.
  destruct (direction sortConfig) as [d|]; trivial.
  destruct (trim query) as [|c r]; trivial.
  apply stable_sort_filter; trivial. apply SortFacts.compareUsers_consistent.
Qed.

End Conforming.

Lemma sortUsers_permutation_witness :
  sorts (@stableSort User) /\
  Permutation roster
    (sortUsers asciiToLowerCase (@stableSort User) roster
       {| key := K_email; direction := Some desc |}).
Proof.
  split; [apply HostFacts.stableSort_sorts|].
  apply (@sortUsers_permutation asciiToLowerCase (@stableSort User)
           (@HostFacts.stableSort_sorts User) roster
           {| key := K_email; direction := Some desc |}).
Defined.

Lemma sortUsers_resort_witness :
  sorts (@stableSort User) /\ stable (@stableSort User) /\
  sortUsers asciiToLowerCase (@stableSort User)
    (sortUsers asciiToLowerCase (@stableSort User) roster
       {| key := K_dob_age; direction := Some asc |})
    {| key := K_dob_age; direction := Some desc |}
  = sortUsers asciiToLowerCase (@stableSort User) roster
      {| key := K_dob_age; direction := Some desc |}.
Proof.
  split; [apply HostFacts.stableSort_sorts|].
  split; [apply HostFacts.stableSort_stable|].
  apply (@sortUsers_resort asciiToLowerCase (@stableSort User)
           (@HostFacts.stableSort_sorts User)
           (@HostFacts.stableSort_stable User) roster K_dob_age asc desc).
Defined.

Lemma sortUsers_filterUsers_commute_witness :
  sorts (@stableSort User) /\ stable (@stableSort User) /\
  sortUsers asciiToLowerCase (@stableSort User)
    (filterUsers roster (lit "male"))
    {| key := K_dob_age; direction := Some asc |}
  = filterUsers
      (sortUsers asciiToLowerCase (@stableSort User) roster
         {| key := K_dob_age; direction := Some asc |})
      (lit "male").
Proof.
  split; [apply HostFacts.stableSort_sorts|].
  split; [apply HostFacts.stableSort_stable|].
  apply (@sortUsers_filterUsers_commute asciiToLowerCase (@stableSort User)
           (@HostFacts.stableSort_sorts User)
           (@HostFacts.stableSort_stable User) roster (lit "male")
           {| key := K_dob_age; direction := Some asc |}).
Defined.

(** Two engines: the recursive insertion sort as the host, the iterative
    one as the other. *)
Lemma sortUsers_same_on_every_stable_host_witness :
  sorts (@stableSort User) /\ stable (@stableSort User) /\
  sorts (@insertionSort User) /\ stable (@insertionSort User) /\
  sortUsers asciiToLowerCase (@insertionSort User) roster
    {| key := K_gender; direction := Some asc |}
  = sortUsers asciiToLowerCase (@stableSort User) roster
      {| key := K_gender; direction := Some asc |}.
Proof.
  split; [apply HostFacts.stableSort_sorts|].
  split; [apply HostFacts.stableSort_stable|].
  split; [apply insertionSort_sorts|].
  split; [apply insertionSort_stable|].
  apply (@sortUsers_same_on_every_stable_host asciiToLowerCase
           (@stableSort User)
           (@HostFacts.stableSort_sorts User)
           (@HostFacts.stableSort_stable User)
           (@insertionSort User) roster
           {| key := K_gender; direction := Some asc |}
           (@insertionSort_sorts User)
           (@insertionSort_stable User)).
Defined.

End SortMore.

(* ================================================================== *)
(** * More about paginateData *)
(* ================================================================== *)

Module PageMore.
Import Helpers Props.
Local Open Scope Z_scope.

(** What [slice] cuts out: [count] elements from position [from]. *)
Lemma slice_window (T : Type) (data : list T) (start end_ : Z) :
  exists from count : nat,
    slice data start end_ = firstn count (skipn from data) /\
    (0 <= end_ - start -> Z.of_nat count <= end_ - start).
Proof.
  unfold slice.
  set (len := Z.of_nat (List.length data)).
  assert (Hl : 0 <= len) by (unfold len; lia).
  destruct (Z.ltb_spec start 0); destruct (Z.ltb_spec end_ 0);
    eexists; eexists; (split; [reflexivity|]); repeat split; intros; lia.
Qed.

(** X14: whatever the page number, also zero or negative, and whatever the
    page size, the page is a run of consecutive elements of the list:
    nothing is invented, repeated or reordered. *)
Theorem paginateData_contiguous (T : Type) (data : list T) (page pageSize : Z) :
  exists before after : list T,
    data = before ++ paginateData data page pageSize ++ after.
Proof.
  unfold paginateData.
  destruct (slice_window data (pageStart page pageSize)
              (pageStart page pageSize + pageSize)) as [from [count [-> _]]].
  exists (firstn from data), (skipn count (skipn from data)).
  now rewrite firstn_skipn, firstn_skipn.
Qed.

(** X15: for a page size that is not negative no page, of any number, has
    more than [pageSize] elements. *)
Theorem paginateData_length_le (T : Type) (data : list T) (page pageSize : Z) :
  0 <= pageSize ->
  Z.of_nat (List.length (paginateData data page pageSize)) <= pageSize.
Proof.
  intros Hs. unfold paginateData.
  destruct (slice_window data (pageStart page pageSize)
              (pageStart page pageSize + pageSize)) as [from [count [-> H]]].
  pose proof (firstn_le_length count (skipn from data)). lia.
Qed.

Lemma paginateData_length_le_witness :
  0 <= 5 /\ Z.of_nat (List.length (paginateData twelve (-1) 5)) <= 5.
Proof.
  split; [lia|]. apply (@paginateData_length_le Z twelve (-1) 5). lia.
Defined.

(** The number of elements of a page from page 1 on. *)
Lemma paginateData_length (T : Type) (data : list T) (page pageSize : Z) :
  1 <= page -> 0 <= pageSize ->
  Z.of_nat (List.length (paginateData data page pageSize))
  = Z.max 0 (Z.min pageSize
               (Z.of_nat (List.length data) - (page - 1) * pageSize)).
Proof.
  intros Hp Hs. rewrite PageFacts.paginateData_firstn_skipn by trivial.
  rewrite length_firstn, length_skipn. nia.
Qed.

(** X16: with a positive page size, the pages before the last one are
    full, the last one has between 1 and [pageSize] elements, and every
    page after it is empty. *)
Theorem paginateData_by_page (T : Type) (data : list T) (page pageSize : Z) :
  0 < pageSize -> 1 <= page ->
  let total := DataTable.totalPages (Z.of_nat (List.length data)) pageSize in
  let n := Z.of_nat (List.length (paginateData data page pageSize)) in
  (page < total -> n = pageSize) /\
  (page = total -> 1 <= n <= pageSize) /\
  (total < page -> paginateData data page pageSize = []).
Proof.
  intros Hs Hp total n.
  assert (Hn : n = Z.max 0 (Z.min pageSize
                 (Z.of_nat (List.length data) - (page - 1) * pageSize))).
  { apply paginateData_length; lia. }
  pose proof (PageFacts.totalPages_covers (Z.of_nat (List.length data)) Hs) as Hc.
  fold total in Hc.
  assert (Hl : (total - 1) * pageSize < Z.of_nat (List.length data)
               \/ Z.of_nat (List.length data) = 0 /\ total = 0).
  { unfold total, DataTable.totalPages.
    pose proof (Z.div_mod (Z.of_nat (List.length data) + pageSize - 1) pageSize) as D.
    pose proof (Z.mod_pos_bound (Z.of_nat (List.length data) + pageSize - 1) pageSize Hs) as B.
    destruct (Z.eq_dec (Z.of_nat (List.length data)) 0) as [E|N].
    - right. split; trivial. rewrite E. apply Z.div_small. lia.
    - left. nia. }
  repeat split.
  - intros H. nia.
  - nia.
  - nia.
  - intros H. apply length_zero_iff_nil. nia.
Qed.

Lemma paginateData_by_page_witness :
  0 < 5 /\ 1 <= 3 /\
  let total := DataTable.totalPages (Z.of_nat (List.length twelve)) 5 in
  let n := Z.of_nat (List.length (paginateData twelve 3 5)) in
  (3 < total -> n = 5) /\
  (3 = total -> 1 <= n <= 5) /\
  (total < 3 -> paginateData twelve 3 5 = []).
Proof.
  split; [lia|]. split; [lia|].
  apply (@paginateData_by_page Z twelve 3 5); lia.
Defined.

(** X17: element [i] of page [page] is element [(page-1)*pageSize + i] of
    the list. *)
Theorem paginateData_nth (T : Type) (data : list T) (page pageSize : Z) (i : nat) :
  1 <= page -> 0 <= pageSize -> Z.of_nat i < pageSize ->
  nth_error (paginateData data page pageSize) i
  = nth_error data (Z.to_nat ((page - 1) * pageSize) + i).
Proof.
  intros Hp Hs Hi. rewrite PageFacts.paginateData_firstn_skipn by trivial.
  rewrite nth_error_firstn, nth_error_skipn.
  destruct (Nat.ltb_spec i (Z.to_nat pageSize)); trivial. lia.
Qed.

Lemma paginateData_nth_witness :
  1 <= 2 /\ 0 <= 5 /\ Z.of_nat 3 < 5 /\
  nth_error (paginateData twelve 2 5) 3
  = nth_error twelve (Z.to_nat ((2 - 1) * 5) + 3).
Proof.
  split; [lia|]. split; [lia|]. split; [lia|].
  apply (@paginateData_nth Z twelve 2 5 3); lia.
Defined.

(** X18: page 0 is empty, for every list and every page size that is not
    negative: the start [-pageSize] counts from the end of the list, and
    the end of the slice is 0. *)
Theorem paginateData_page_zero (T : Type) (data : list T) (pageSize : Z) :
  0 <= pageSize -> paginateData data 0 pageSize = [].
Proof.
  intros Hs. unfold paginateData, pageStart, slice.
  replace ((0 - 1) * pageSize + pageSize) with 0 by lia.
  change (0 <? 0) with false. cbv iota.
  rewrite Z.min_l by lia.
  destruct ((0 - 1) * pageSize <? 0) eqn:E.
  - replace (Z.to_nat (0 - Z.max (Z.of_nat (List.length data) + (0 - 1) * pageSize) 0))
      with 0%nat by lia.
    reflexivity.
  - apply Z.ltb_ge in E.
    replace (Z.to_nat (0 - Z.min ((0 - 1) * pageSize) (Z.of_nat (List.length data))))
      with 0%nat by lia.
    reflexivity.
Qed.

Lemma paginateData_page_zero_witness :
  0 <= 5 /\ paginateData twelve 0 5 = [].
Proof.
  split; [lia|]. apply (@paginateData_page_zero Z twelve 5). lia.
Defined.

End PageMore.

(* ================================================================== *)
(** * More about the DataTable component *)
(* ================================================================== *)

Module TableMore.
Import JS DataTable.
Local Open Scope Z_scope.

(** ** handleSort *)

Lemma SortKey_eqb_refl (k : Helpers.SortKey) : Helpers.SortKey_eqb k k = true.
Proof. now destruct k. Qed.

(** X19: clicking one header again and again alternates between two
    states: the third click gives the state of the first, and two clicks on
    the column that is already sorted give back the sort one started
    with. *)
Theorem handleSort_alternates (k : Helpers.SortKey) (s : State) :
  handleSort k (handleSort k (handleSort k s)) = handleSort k s /\
  (key (sortConfig s) = k ->
   sortConfig (handleSort k (handleSort k s)) = sortConfig s).
Proof.
  unfold handleSort, setCurrentPage, setSortConfig. cbn.
  rewrite !SortKey_eqb_refl. cbn. split.
  - destruct (Helpers.SortKey_eqb (key (sortConfig s)) k);
      destruct (direction (sortConfig s)); reflexivity.
  - intros <-. rewrite SortKey_eqb_refl.
    destruct (sortConfig s) as [k0 []]; reflexivity.
Qed.

(** ** The fetch effect *)

Lemma afterFetch_frame (o : FetchOutcome) (s : State) :
  searchQuery (afterFetch o s) = searchQuery s /\
  debouncedQuery (afterFetch o s) = debouncedQuery s /\
  sortConfig (afterFetch o s) = sortConfig s /\
  currentPage (afterFetch o s) = currentPage s /\
  timer (afterFetch o s) = timer s.
Proof.
  unfold afterFetch, fetchUsers, tryCatchFinally.
  destruct o as [[|] [results|e]|e]; cbn;
    try (destruct (isAbortError e); cbn); repeat split.
Qed.

(** X20: however the request settles, [loading] ends false, and the
    search text, the debounced text, the sort, the page and the pending
    timer are left as they were. *)
Theorem afterFetch_loading_and_frame (o : FetchOutcome) (s : State) :
  loading (afterFetch o s) = false /\
  searchQuery (afterFetch o s) = searchQuery s /\
  debouncedQuery (afterFetch o s) = debouncedQuery s /\
  sortConfig (afterFetch o s) = sortConfig s /\
  currentPage (afterFetch o s) = currentPage s /\
  timer (afterFetch o s) = timer s.
Proof.
  unfold afterFetch, fetchUsers, tryCatchFinally.
  destruct o as [[|] [results|e]|e]; cbn;
    try (destruct (isAbortError e); cbn); repeat split.
Qed.

(** X21: a failure that is not an abort ends in the error state with the
    failure's message: "Failed to fetch data" for a response that is not
    ok, whatever its body; the message of the error for a rejected request
    or an unreadable body; "An error occurred" when what was thrown is not
    an [Error].  The records are left as they were. *)
Theorem afterFetch_failure (s : State) (e : Thrown) (body : JsonOutcome) :
  isAbortError e = false ->
  fetchState (afterFetch (Responded false body) s)
  = (users s, false, Some (lit "Failed to fetch data")) /\
  fetchState (afterFetch (FetchRejected e) s)
  = (users s, false, Some (errorMessage e)) /\
  fetchState (afterFetch (Responded true (JsonRejected e)) s)
  = (users s, false, Some (errorMessage e)) /\
  errorMessage OtherValue = lit "An error occurred".
Proof.
  intros H. unfold fetchState, afterFetch, fetchUsers, tryCatchFinally. cbn.
  rewrite H. cbn. repeat split.
Qed.

Lemma afterFetch_failure_witness :
  isAbortError (ErrorObject (lit "TypeError") (lit "Failed to fetch")) = false /\
  fetchState
    (afterFetch (FetchRejected (ErrorObject (lit "TypeError") (lit "Failed to fetch")))
       mount)
  = (users mount, false, Some (lit "Failed to fetch")).
Proof.
  split; [reflexivity|].
  apply (@afterFetch_failure mount
           (ErrorObject (lit "TypeError") (lit "Failed to fetch"))
           (JsonResolved []) eq_refl).
Defined.

(** ** The debounce timer *)

Lemma elapse_short (ms : nat) (s : State) (t : Timer) :
  timer s = Some t -> (ms < remaining t)%nat ->
  elapse ms s
  = setTimer (Some {| captured := captured t; remaining := remaining t - ms |}) s.
Proof.
  intros Ht Hms. unfold elapse. rewrite Ht.
  destruct (Nat.leb_spec (remaining t) ms); trivial. lia.
Qed.

(** X22: two changes of the search text less than 300 ms apart commit
    once: the first text is never copied into the debounced query, and the
    second is, 300 ms after it was typed. *)
Theorem debounce_collapses (a b : jsstring) (s : State) (gap ms : nat) :
  a <> searchQuery s -> b <> a -> (gap < 300)%nat ->
  debouncedQuery (elapse gap (onSearchChange a s)) = debouncedQuery s /\
  debouncedQuery
    (elapse ms (onSearchChange b (elapse gap (onSearchChange a s))))
  = if (300 <=? ms)%nat then b else debouncedQuery s.
Proof.
  intros Ha Hb Hgap.
  pose proof (@TableFacts.onSearchChange_timer a s Ha) as Ta.
  pose proof (TableFacts.onSearchChange_fields a s) as [Fq [_ [Fd _]]].
  rewrite (@elapse_short gap _ _ Ta) by (cbn; lia).
  set (s1 := setTimer _ (onSearchChange a s)).
  assert (Q1 : searchQuery s1 = a) by exact Fq.
  assert (D1 : debouncedQuery s1 = debouncedQuery s) by exact Fd.
  split; trivial.
  assert (Hb' : b <> searchQuery s1) by congruence.
  pose proof (@TableFacts.onSearchChange_timer b s1 Hb') as Tb.
  pose proof (TableFacts.onSearchChange_fields b s1) as [_ [_ [Gd _]]].
  unfold elapse. rewrite Tb. cbn [remaining captured].
  destruct (300 <=? ms)%nat.
  - reflexivity.
  - unfold setTimer. cbn [debouncedQuery]. congruence.
Qed.

Lemma debounce_collapses_witness :
  lit "a" <> searchQuery mount /\ lit "ab" <> lit "a" /\ (120 < 300)%nat /\
  debouncedQuery (elapse 120 (onSearchChange (lit "a") mount)) = debouncedQuery mount /\
  debouncedQuery
    (elapse 300 (onSearchChange (lit "ab") (elapse 120 (onSearchChange (lit "a") mount))))
  = if (300 <=? 300)%nat then lit "ab" else debouncedQuery mount.
Proof.
  assert (H1 : lit "a" <> searchQuery mount) by discriminate.
  assert (H2 : lit "ab" <> lit "a") by discriminate.
  assert (H3 : (120 < 300)%nat) by lia.
  split; [exact H1|]. split; [exact H2|]. split; [exact H3|].
  exact (@debounce_collapses (lit "a") (lit "ab") mount 120 300 H1 H2 H3).
Defined.


(** ** The pagination buttons *)

(** The user's events do nothing while the table is not rendered. *)
Ltac when_interactive s :=
  try match goal with
      | |- context [Session.interactive s] =>
          destruct (Session.interactive s); [|trivial]
      end.

Lemma totalPages_nonneg (n : nat) : 0 <= totalPages (Z.of_nat n) pageSize.
Proof.
  unfold totalPages, pageSize. apply Z.div_pos; lia.
Qed.

Section Hosted.
Variable toLowerCase : jsstring -> jsstring.
Variable Array_sort :
  (Helpers.User -> Helpers.User -> Z) -> list Helpers.User -> list Helpers.User.

Local Abbreviation total := (renderedTotalPages toLowerCase Array_sort).
Local Abbreviation next := (clickNext toLowerCase Array_sort).

Lemma total_nonneg (s : State) : 0 <= total s.
Proof. apply totalPages_nonneg. Qed.

Lemma total_setCurrentPage (f : Z -> Z) (s : State) :
  total (setCurrentPage f s) = total s.
Proof. reflexivity. Qed.

(** X23: from a page between 1 and the number of pages, Previous and Next
    stay in that range, and each undoes the other where both move. *)
Theorem buttons_stay_in_range (s : State) :
  1 <= currentPage s <= total s ->
  1 <= currentPage (clickPrevious s) <= total s /\
  1 <= currentPage (next s) <= total s /\
  (currentPage s < total s -> currentPage (clickPrevious (next s)) = currentPage s) /\
  (1 < currentPage s -> currentPage (next (clickPrevious s)) = currentPage s).
Proof.
  intros H. unfold next, clickNext, clickPrevious, nextPage, previousPage.
  fold (total s).
  destruct (Z.eqb_spec (currentPage s) 1) as [E1|N1];
  destruct (Z.eqb_spec (currentPage s) (total s)) as [E2|N2];
  destruct (Z.eqb_spec (total s) 0) as [E3|N3]; cbn [orb];
    unfold setCurrentPage; cbn [currentPage];
    fold (total s); repeat split; try lia.
  all: intros K.
  all: repeat match goal with
       | |- context [renderedTotalPages _ _ (mkState ?a ?b ?c ?d ?e ?f ?g ?h)] =>
           change (renderedTotalPages toLowerCase Array_sort (mkState a b c d e f g h))
             with (total s)
       end.
  all: repeat match goal with
       | |- context [Z.eqb ?x ?y] => destruct (Z.eqb_spec x y)
       end; cbn [orb currentPage]; try lia.
Qed.

(** X24: when the page is past the last page (the committed query has
    shrunk the result under the user), Next is enabled and goes back to the
    last page. *)
Theorem next_from_past_the_end (s : State) :
  0 < total s < currentPage s ->
  currentPage (next s) = total s.
Proof.
  intros H. unfold next, clickNext, nextPage. fold (total s).
  destruct (Z.eqb_spec (currentPage s) (total s)); [lia|].
  destruct (Z.eqb_spec (total s) 0); [lia|].
  cbn. lia.
Qed.

(** ** Invariants of a mounted table *)

Local Abbreviation step := (Session.step toLowerCase Array_sort).
Local Abbreviation run := (Session.run toLowerCase Array_sort).

Lemma step_pageInv (s : State) (e : Session.Event) :
  Session.pageInv s -> Session.pageInv (step s e).
Proof.
  unfold Session.pageInv, step. intros H.
  destruct e as [o|value|ms|k| |]; cbn [Session.step];
    when_interactive s.
  - now rewrite (proj1 (proj2 (proj2 (proj2 (afterFetch_frame o s))))).
  - now rewrite (proj1 (proj2 (TableFacts.onSearchChange_fields value s))).
  - now rewrite TableFacts.elapse_currentPage.
  - cbn. lia.
  - unfold clickPrevious, previousPage.
    destruct (currentPage s =? 1); cbn; lia.
  - unfold clickNext, nextPage. fold (total s).
    pose proof (total_nonneg s).
    destruct (Z.eqb_spec (currentPage s) (total s));
      destruct (Z.eqb_spec (total s) 0); cbn; lia.
Qed.

Lemma step_timerInv (s : State) (e : Session.Event) :
  Session.timerInv s -> Session.timerInv (step s e).
Proof.
  unfold Session.timerInv, step. intros H.
  destruct e as [o|value|ms|k| |]; cbn [Session.step];
    when_interactive s.
  - destruct (afterFetch_frame o s) as [-> [-> [_ [_ ->]]]].
    exact H.
  - unfold onSearchChange, debounceEffect. cbn.
    destruct (eqb (searchQuery s) value) eqn:E; cbn; trivial.
    apply JSFacts.eqb_eq in E. subst value. exact H.
  - unfold elapse. destruct (timer s) as [t|] eqn:T; [|now rewrite T].
    destruct (remaining t <=? ms)%nat; cbn; trivial.
  - exact H.
  - unfold clickPrevious, previousPage.
    destruct (currentPage s =? 1); trivial.
  - unfold clickNext, nextPage. cbv zeta.
    destruct (orb _ _); trivial.
Qed.

Lemma run_invariant (P : State -> Prop) (events : list Session.Event) :
  P mount -> (forall s e, P s -> P (step s e)) -> P (run events).
Proof.
  intros H0 Hs. unfold run, Session.run. fold step.
  generalize mount H0. induction events as [|e events IH]; intros s H; cbn; auto.
Qed.

(** X25: whatever happens to a mounted table, the page is never below 1;
    so the start that [paginateData] computes is never negative. *)
Theorem page_at_least_one (events : list Session.Event) :
  1 <= currentPage (run events) /\
  0 <= Helpers.pageStart (currentPage (run events)) pageSize.
Proof.
  assert (H : Session.pageInv (run events)).
  { apply run_invariant; [unfold Session.pageInv; cbn; lia | apply step_pageInv]. }
  unfold Session.pageInv in H. split; trivial.
  unfold Helpers.pageStart, pageSize. lia.
Qed.

(** X26: whatever happens to a mounted table, a pending timer holds the
    current search text, and when no timer is pending the debounced query
    is the search text: what gets committed is always the latest input. *)
Theorem debounce_commits_latest (events : list Session.Event) :
  match timer (run events) with
  | Some t => captured t = searchQuery (run events)
  | None => debouncedQuery (run events) = searchQuery (run events)
  end.
Proof.
  apply (@run_invariant Session.timerInv); [reflexivity | apply step_timerInv].
Qed.


End Hosted.

Lemma buttons_stay_in_range_witness :
  1 <= currentPage Props.onPage2
    <= renderedTotalPages Host.asciiToLowerCase (@Host.stableSort Helpers.User) Props.onPage2 /\
  1 <= currentPage (clickPrevious Props.onPage2)
    <= renderedTotalPages Host.asciiToLowerCase (@Host.stableSort Helpers.User) Props.onPage2.
Proof.
  assert (H : 1 <= currentPage Props.onPage2
              <= renderedTotalPages Host.asciiToLowerCase
                   (@Host.stableSort Helpers.User) Props.onPage2)
    by (vm_compute; split; discriminate).
  split; [exact H|].
  apply (@buttons_stay_in_range Host.asciiToLowerCase
           (@Host.stableSort Helpers.User) Props.onPage2 H).
Defined.

Lemma next_from_past_the_end_witness :
  0 < renderedTotalPages Host.asciiToLowerCase (@Host.stableSort Helpers.User)
        Props.pastTheEnd
    < currentPage Props.pastTheEnd /\
  currentPage (clickNext Host.asciiToLowerCase (@Host.stableSort Helpers.User)
                 Props.pastTheEnd)
  = renderedTotalPages Host.asciiToLowerCase (@Host.stableSort Helpers.User)
      Props.pastTheEnd.
Proof.
  assert (H : 0 < renderedTotalPages Host.asciiToLowerCase
                    (@Host.stableSort Helpers.User) Props.pastTheEnd
              < currentPage Props.pastTheEnd)
    by (vm_compute; split; reflexivity).
  split; [exact H|].
  exact (@next_from_past_the_end Host.asciiToLowerCase
           (@Host.stableSort Helpers.User) Props.pastTheEnd H).
Defined.

(** A failure whose message is empty leaves the table on screen: the
    search box still takes input. *)
Lemma typing_after_empty_error :
  searchQuery
    (Session.step Host.asciiToLowerCase (@Host.stableSort Helpers.User)
       (afterFetch (FetchRejected (ErrorObject (lit "Error") [])) mount)
       (Session.Typing (lit "a")))
  = lit "a".
Proof. reflexivity. Qed.



(** ** What is rendered *)

Section Rendered.
Variable toLowerCase : jsstring -> jsstring.
Variable Array_sort :
  (Helpers.User -> Helpers.User -> Z) -> list Helpers.User -> list Helpers.User.

(** X28: on a host whose sort rearranges, every row of the table is one of
    the fetched records, and, unless the committed query is blank, one that
    matches it. *)
Theorem rows_are_matching_records (s : State) (u : Helpers.User) :
  Host.sorts Array_sort ->
  In u (paginatedUsers toLowerCase Array_sort s) ->
  In u (users s) /\
  (forallb isWhiteSpace (debouncedQuery s) = true \/
   Helpers.matchesQuery (trim (debouncedQuery s)) u = true).
Proof.
  intros Hs Hu. unfold paginatedUsers, Helpers.paginateData in Hu.
  destruct (PageMore.slice_window
              (sortedUsers toLowerCase Array_sort s)
              (Helpers.pageStart (currentPage s) pageSize)
              (Helpers.pageStart (currentPage s) pageSize + pageSize))
    as [from [count [E _]]].
  rewrite E in Hu. clear E.
  assert (Hsorted : In u (sortedUsers toLowerCase Array_sort s)).
  { rewrite <- (firstn_skipn from). apply in_or_app. right.
    rewrite <- (firstn_skipn count (skipn from _)). apply in_or_app. now left. }
  unfold sortedUsers, Helpers.sortUsers in Hsorted. cbn in Hsorted.
  destruct (Hs (Helpers.compareUsers toLowerCase (key (sortConfig s))
                  (direction (sortConfig s)))
               (filteredUsers s)
               (SortFacts.compareUsers_consistent toLowerCase _ _)) as [P _].
  apply (Permutation_in _ (Permutation_sym P)) in Hsorted.
  unfold filteredUsers, Helpers.filterUsers in Hsorted.
  destruct (trim (debouncedQuery s)) as [|c r] eqn:T.
  - split; trivial. left. now apply JSFacts.trim_nil_iff.
  - apply filter_In in Hsorted. destruct Hsorted. auto.
Qed.

(** X29: on a page between 1 and the number of pages, the footer's
    "Showing [from] to [to]" counts the rows of the table:
    [to - from + 1] rows are rendered. *)
Theorem footer_counts_rows (s : State) :
  1 <= currentPage s <= renderedTotalPages toLowerCase Array_sort s ->
  Render.showingTo toLowerCase Array_sort s
  - Render.showingFrom toLowerCase Array_sort s + 1
  = Z.of_nat (List.length (paginatedUsers toLowerCase Array_sort s)).
Proof.
  unfold Render.showingTo, Render.showingFrom, paginatedUsers, renderedTotalPages.
  set (rows := sortedUsers toLowerCase Array_sort s).
  set (len := Z.of_nat (List.length rows)).
  intros H.
  rewrite PageMore.paginateData_length by (unfold pageSize; lia).
  fold len. unfold totalPages, pageSize in *.
  assert (Hl : 0 <= len) by (unfold len; lia).
  pose proof (Z.div_mod (len + 5 - 1) 5) as D.
  pose proof (Z.mod_pos_bound (len + 5 - 1) 5) as B.
  destruct (Z.ltb_spec 0 len); lia.
Qed.

End Rendered.

Lemma rows_are_matching_records_witness :
  Host.sorts (@Host.stableSort Helpers.User) /\
  In Props.tam
     (paginatedUsers Host.asciiToLowerCase (@Host.stableSort Helpers.User)
        Props.onPage2) /\
  In Props.tam (users Props.onPage2) /\
  (forallb isWhiteSpace (debouncedQuery Props.onPage2) = true \/
   Helpers.matchesQuery (trim (debouncedQuery Props.onPage2)) Props.tam = true).
Proof.
  assert (H : In Props.tam
                (paginatedUsers Host.asciiToLowerCase
                   (@Host.stableSort Helpers.User) Props.onPage2))
    by (vm_compute; now left).
  split; [apply HostFacts.stableSort_sorts|]. split; [exact H|].
  exact (@rows_are_matching_records Host.asciiToLowerCase
           (@Host.stableSort Helpers.User) Props.onPage2 Props.tam
           (@HostFacts.stableSort_sorts Helpers.User) H).
Defined.

Lemma footer_counts_rows_witness :
  1 <= currentPage Props.onPage2
    <= renderedTotalPages Host.asciiToLowerCase (@Host.stableSort Helpers.User)
         Props.onPage2 /\
  Render.showingTo Host.asciiToLowerCase (@Host.stableSort Helpers.User) Props.onPage2
  - Render.showingFrom Host.asciiToLowerCase (@Host.stableSort Helpers.User) Props.onPage2
  + 1
  = Z.of_nat (List.length
                (paginatedUsers Host.asciiToLowerCase
                   (@Host.stableSort Helpers.User) Props.onPage2)).
Proof.
  assert (H : 1 <= currentPage Props.onPage2
              <= renderedTotalPages Host.asciiToLowerCase
                   (@Host.stableSort Helpers.User) Props.onPage2)
    by (vm_compute; split; discriminate).
  split; [exact H|].
  exact (@footer_counts_rows Host.asciiToLowerCase
           (@Host.stableSort Helpers.User) Props.onPage2 H).
Defined.

(** X30: the arrow of a header and its [aria-sort] attribute say the same
    thing, and exactly one header, the one of the sort key, has an arrow
    that is not the neutral one. *)
Theorem icon_and_aria_agree (c : SortState) (column : Helpers.SortKey) :
  (Render.SortIcon column (Render.asSortConfig c) = Render.UpDown <->
   Render.ariaSort column c = lit "none") /\
  (Render.SortIcon column (Render.asSortConfig c) = Render.Up <->
   Render.ariaSort column c = lit "ascending") /\
  (Render.SortIcon column (Render.asSortConfig c) = Render.Down <->
   Render.ariaSort column c = lit "descending") /\
  filter (fun col =>
            match Render.SortIcon col (Render.asSortConfig c) with
            | Render.UpDown => false
            | _ => true
            end) Render.columns = [key c].
Proof.
  destruct c as [k d]. destruct k, d, column; vm_compute;
    repeat split; intros; (reflexivity || discriminate).
Qed.

End TableMore.
